(** * Blueboat [Server]: a shallow embedding of [server/Server.ts]

    The development models the parts of the [Server] class that keep the
    per-process bookkeeping ([registerRoom], [onRoomMade], [onRoomDisposed]),
    relay broker messages into the local event emitter ([spawnPubSub]) and
    drain the rooms at exit ([shutdown], [gracefullyShutdown]).

    JavaScript strings are sequences of UTF-16 code units, values are the
    dynamically typed values of the language, and effectful code runs in a
    small monad that threads the server state and the trace of observable
    effects and distinguishes the ways in which a piece of code can complete
    (normally, by [return], by [throw], by ending the process, or by never
    being resumed after an [await]). *)

From Stdlib Require Import List Bool Arith ZArith NArith Lia String Ascii.
Import ListNotations.

Set Implicit Arguments.
Set Warnings "-register-all".

(* ================================================================== *)
(** ** JavaScript strings and values *)

Module JS.

(** A string is a list of UTF-16 code units. *)
Definition code_unit := N.
Definition jsstring := list code_unit.

(** Literals of the source, written as Rocq strings. *)
Definition lit (s : string) : jsstring :=
  List.map N_of_ascii (list_ascii_of_string s).

(** Strict equality [===] on two strings: same code units, in order. *)
Fixpoint str_eqb (a b : jsstring) : bool :=
  match a, b with
  | [], [] => true
  | x :: a', y :: b' => N.eqb x y && str_eqb a' b'
  | _, _ => false
  end.

(** The values of the language.  [JNumber neg c e] is the decimal
    [(-1)^neg * c * 10^e] a JSON text denotes, before it is rounded to a
    double.  [JHost r] stands for a function, a class or another host
    object, known by its identity only. *)
Inductive JSValue : Type :=
| JUndefined
| JNull
| JBool (b : bool)
| JNumber (neg : bool) (coeff : N) (exp10 : Z)
| JString (s : jsstring)
| JArray (elems : list JSValue)
| JObject (members : list (jsstring * JSValue))
| JHost (ref : N).

(** Does the decimal [c * 10^e] round to a double other than zero?  The
    smallest positive double is [2^-1074]; under round-to-nearest-even a
    value rounds to zero exactly when it is at most [2^-1075]. *)
Definition rounds_to_nonzero (c : N) (e : Z) : bool :=
  if N.eqb c 0 then false
  else if (0 <=? e)%Z then true
  else (10 ^ (- e) <? Z.of_N c * 2 ^ 1075)%Z.

(** [ToBoolean]. *)
Definition truthy (v : JSValue) : bool :=
  match v with
  | JUndefined | JNull => false
  | JBool b => b
  | JNumber _ c e => rounds_to_nonzero c e
  | JString s => match s with [] => false | _ :: _ => true end
  | JArray _ | JObject _ | JHost _ => true
  end.

(** [arr.includes(v)] on an array of strings: [SameValueZero] relates a
    string only to a string with the same code units. *)
Definition includes (arr : list jsstring) (v : JSValue) : bool :=
  match v with
  | JString s => existsb (str_eqb s) arr
  | _ => false
  end.

(** The errors that matter here: the two the runtime raises in the bridge,
    and whatever a room's hook throws or rejects with (never inspected by
    the server). *)
Inductive JSError : Type :=
| SyntaxError
| TypeError
| HostError.

(** First binding of a key in a member list. *)
Fixpoint lookup (k : jsstring) (m : list (jsstring * JSValue)) : option JSValue :=
  match m with
  | [] => None
  | (k', v) :: m' => if str_eqb k k' then Some v else lookup k m'
  end.

(** [o[k] = v] on a plain object: an existing key keeps its place. *)
Fixpoint assign (k : jsstring) (v : JSValue) (m : list (jsstring * JSValue))
  : list (jsstring * JSValue) :=
  match m with
  | [] => [(k, v)]
  | (k', v') :: m' =>
      if str_eqb k k' then (k', v) :: m' else (k', v') :: assign k v m'
  end.

(** Property read [v.k] for one of the names the bridge reads ([room],
    [client], [action], [data]): none of them lives on a prototype, so
    every value but an object that has the key gives [undefined];
    [null] and [undefined] have no properties and raise [TypeError]. *)
Definition get (v : JSValue) (k : jsstring) : JSError + JSValue :=
  match v with
  | JUndefined | JNull => inl TypeError
  | JObject m => inr (match lookup k m with Some x => x | None => JUndefined end)
  | _ => inr JUndefined
  end.

End JS.
Import JS.

(* ================================================================== *)
(** ** [JSON.parse] *)

Module JSON.

Definition is_ws (c : code_unit) : bool :=
  N.eqb c 9 || N.eqb c 10 || N.eqb c 13 || N.eqb c 32.

Fixpoint skip_ws (s : jsstring) : jsstring :=
  match s with
  | c :: r => if is_ws c then skip_ws r else s
  | [] => []
  end.

Definition is_digit (c : code_unit) : bool := N.leb 48 c && N.leb c 57.

Definition hex_digit (c : code_unit) : option N :=
  if N.leb 48 c && N.leb c 57 then Some (c - 48)%N
  else if N.leb 65 c && N.leb c 70 then Some (c - 55)%N
  else if N.leb 97 c && N.leb c 102 then Some (c - 87)%N
  else None.

Definition hex4 (a b c d : code_unit) : option code_unit :=
  match hex_digit a, hex_digit b, hex_digit c, hex_digit d with
  | Some x, Some y, Some z, Some w => Some (((x * 16 + y) * 16 + z) * 16 + w)%N
  | _, _, _, _ => None
  end.

(** The code unit an escape letter stands for. *)
Definition simple_escape (c : code_unit) : option code_unit :=
  if N.eqb c 34 then Some 34%N          (* quotation mark *)
  else if N.eqb c 92 then Some 92%N     (* reverse solidus *)
  else if N.eqb c 47 then Some 47%N     (* solidus *)
  else if N.eqb c 98 then Some 8%N      (* b: backspace *)
  else if N.eqb c 102 then Some 12%N    (* f: form feed *)
  else if N.eqb c 110 then Some 10%N    (* n: line feed *)
  else if N.eqb c 114 then Some 13%N    (* r: carriage return *)
  else if N.eqb c 116 then Some 9%N     (* t: tab *)
  else None.

(** The characters of a string after its opening quote, up to and
    including the closing one. *)
Fixpoint string_body (s acc : jsstring) : option (jsstring * jsstring) :=
  match s with
  | [] => None
  | c :: r =>
      if N.eqb c 34 then Some (rev acc, r)
      else if N.eqb c 92 then
        match r with
        | [] => None
        | e :: r1 =>
            if N.eqb e 117 then
              match r1 with
              | h1 :: h2 :: h3 :: h4 :: r2 =>
                  match hex4 h1 h2 h3 h4 with
                  | Some u => string_body r2 (u :: acc)
                  | None => None
                  end
              | _ => None
              end
            else
              match simple_escape e with
              | Some u => string_body r1 (u :: acc)
              | None => None
              end
        end
      else if N.ltb c 32 then None
      else string_body r (c :: acc)
  end.

(** A maximal run of decimal digits: its value, its length, the rest. *)
Fixpoint digits (s : jsstring) (acc : N) (n : nat) : N * nat * jsstring :=
  match s with
  | c :: r => if is_digit c then digits r (acc * 10 + (c - 48))%N (S n)
              else (acc, n, s)
  | [] => (acc, n, [])
  end.

(** [int]: a single [0], or a digit from 1 to 9 followed by digits. *)
Definition int_part (s : jsstring) : option (N * jsstring) :=
  match s with
  | c :: r =>
      if N.eqb c 48 then Some (0%N, r)
      else if is_digit c then
        let '(v, _, r') := digits r (c - 48)%N 0 in Some (v, r')
      else None
  | [] => None
  end.

(** [frac]: nothing, or a dot and at least one digit.  Returns the
    coefficient extended by the fraction digits and their number. *)
Definition frac_part (c : N) (s : jsstring) : option (N * nat * jsstring) :=
  match s with
  | d :: r =>
      if N.eqb d 46 then
        match digits r c 0 with
        | (_, O, _) => None
        | (c', n, r') => Some (c', n, r')
        end
      else Some (c, O, s)
  | [] => Some (c, O, [])
  end.

(** [exp]: nothing, or [e]/[E], an optional sign and at least one digit. *)
Definition exp_part (s : jsstring) : option (Z * jsstring) :=
  match s with
  | x :: r =>
      if N.eqb x 101 || N.eqb x 69 then
        let '(sgn, r0) :=
          match r with
          | y :: r' => if N.eqb y 45 then (true, r')
                       else if N.eqb y 43 then (false, r')
                       else (false, r)
          | [] => (false, r)
          end in
        match digits r0 0 0 with
        | (_, O, _) => None
        | (v, _, r1) => Some (if sgn then (- Z.of_N v)%Z else Z.of_N v, r1)
        end
      else Some (0%Z, s)
  | [] => Some (0%Z, [])
  end.

Definition number (s : jsstring) : option (JSValue * jsstring) :=
  let '(neg, s0) :=
    match s with
    | c :: r => if N.eqb c 45 then (true, r) else (false, s)
    | [] => (false, s)
    end in
  match int_part s0 with
  | None => None
  | Some (i, s1) =>
      match frac_part i s1 with
      | None => None
      | Some (c, nfrac, s2) =>
          match exp_part s2 with
          | None => None
          | Some (e, s3) => Some (JNumber neg c (e - Z.of_nat nfrac), s3)
          end
      end
  end.

(** [strip p s]: [s] without its prefix [p], when it has it. *)
Fixpoint strip (p s : jsstring) : option jsstring :=
  match p, s with
  | [], _ => Some s
  | x :: p', y :: s' => if N.eqb x y then strip p' s' else None
  | _ :: _, [] => None
  end.

(** Result of a parser that runs on fuel. *)
Inductive presult : Type :=
| POk (v : JSValue) (rest : jsstring)
| PErr
| PFuel.

(** Recursive descent over the JSON grammar.  [elements] is entered after
    an opening bracket and [members] after an opening brace, both with
    what was read so far. *)
Fixpoint value (fuel : nat) (s : jsstring) {struct fuel} : presult :=
  match fuel with
  | O => PFuel
  | S f =>
      match skip_ws s with
      | [] => PErr
      | c :: r =>
          if N.eqb c 123 then
            match skip_ws r with
            | d :: r' => if N.eqb d 125 then POk (JObject []) r'
                         else members f (d :: r') []
            | [] => PErr
            end
          else if N.eqb c 91 then
            match skip_ws r with
            | d :: r' => if N.eqb d 93 then POk (JArray []) r'
                         else elements f (d :: r') []
            | [] => PErr
            end
          else if N.eqb c 34 then
            match string_body r [] with
            | Some (str, r') => POk (JString str) r'
            | None => PErr
            end
          else if N.eqb c 116 then
            match strip (lit "rue") r with
            | Some r' => POk (JBool true) r' | None => PErr end
          else if N.eqb c 102 then
            match strip (lit "alse") r with
            | Some r' => POk (JBool false) r' | None => PErr end
          else if N.eqb c 110 then
            match strip (lit "ull") r with
            | Some r' => POk JNull r' | None => PErr end
          else
            match number (c :: r) with
            | Some (v, r') => POk v r' | None => PErr end
      end
  end
with elements (fuel : nat) (s : jsstring) (acc : list JSValue) {struct fuel}
  : presult :=
  match fuel with
  | O => PFuel
  | S f =>
      match value f s with
      | POk v r =>
          match skip_ws r with
          | d :: r' =>
              if N.eqb d 44 then elements f r' (v :: acc)
              else if N.eqb d 93 then POk (JArray (rev (v :: acc))) r'
              else PErr
          | [] => PErr
          end
      | PErr => PErr
      | PFuel => PFuel
      end
  end
with members (fuel : nat) (s : jsstring) (acc : list (jsstring * JSValue))
       {struct fuel} : presult :=
  match fuel with
  | O => PFuel
  | S f =>
      match skip_ws s with
      | q :: r =>
          if N.eqb q 34 then
            match string_body r [] with
            | Some (k, r1) =>
                match skip_ws r1 with
                | col :: r2 =>
                    if N.eqb col 58 then
                      match value f r2 with
                      | POk v r3 =>
                          match skip_ws r3 with
                          | d :: r4 =>
                              if N.eqb d 44 then members f r4 (assign k v acc)
                              else if N.eqb d 125
                                   then POk (JObject (assign k v acc)) r4
                              else PErr
                          | [] => PErr
                          end
                      | PErr => PErr
                      | PFuel => PFuel
                      end
                    else PErr
                | [] => PErr
                end
            | None => PErr
            end
          else PErr
      | [] => PErr
      end
  end.

(** [JSON.parse text]: one value, white space around it, nothing else.
    [None] stands for the [SyntaxError] the runtime throws. *)
Definition parse (text : jsstring) : option JSValue :=
  match value (2 * List.length text + 1) text with
  | POk v rest => match skip_ws rest with [] => Some v | _ :: _ => None end
  | PErr | PFuel => None
  end.

End JSON.

(* ================================================================== *)
(** ** Server state, observable effects and the monad of method bodies *)

Module Eff.

(** A promise, seen from the code that waits for it: it fulfils, it
    rejects, or it never settles.  Reasons and values are left out, since
    the server never looks at them. *)
Inductive settlement : Type :=
| Fulfils
| Rejects
| Never.

(** What calling a room's [dispose()] does: throw at once, or return
    something that [Promise.all] resolves to the given settlement. *)
Inductive call_result : Type :=
| Throws
| Returns (p : settlement).

(** [types/AvailableRoomType]: the record [registerRoom] pushes. *)
Record AvailableRoomType : Type := {
  name : jsstring;
  handler : JSValue;
  options : JSValue
}.

(** [room/Room], as far as the server uses it: the id and the hook.  Of
    the hook only the way a call to it completes is kept; what it does to
    the rest of the system is outside this development. *)
Record Room : Type := {
  roomId : jsstring;
  dispose : call_result
}.

Record ServerState : Type := {
  availableRoomTypes : list AvailableRoomType;
  managingRooms : list Room;
  managingRoomIds : list jsstring
}.

(** The state of a freshly constructed [Server]. *)
Definition initial : ServerState :=
  {| availableRoomTypes := []; managingRooms := []; managingRoomIds := [] |}.

(** Second argument of [Emitter.emit]: a string handed over as it is, or
    the text [JSON.stringify] makes of a value. *)
Inductive emit_arg : Type :=
| Str (s : jsstring)
| Stringified (v : JSValue).

(** Effects that leave the method bodies. *)
Inductive event : Type :=
| Emit (key : JSValue) (arg : emit_arg)   (* Emitter.emit(key, arg) *)
| ConsoleLog (v : JSValue)                (* console.log(v) *)
| DisposeCalled (id : jsstring)           (* room.dispose() on that room *)
| ServerClose                             (* this.server.close() *)
| ProcessExit (code : Z).                 (* process.exit(code) *)

Record World : Type := {
  state : ServerState;
  trace : list event
}.

(** How a statement list completes.  [Exited]: the process is gone.
    [Suspended]: the code awaits a promise that never settles and is
    never resumed. *)
Inductive completion (A : Type) : Type :=
| Normal (a : A)
| Returned (v : JSValue)
| Thrown (e : JSError)
| Exited (code : Z)
| Suspended.
Arguments Normal {A} a.
Arguments Returned {A} v.
Arguments Thrown {A} e.
Arguments Exited {A} code.
Arguments Suspended {A}.

Definition M (A : Type) : Type := World -> completion A * World.

Definition ret {A} (a : A) : M A := fun w => (Normal a, w).

Definition bind {A B} (m : M A) (k : A -> M B) : M B :=
  fun w =>
    match m w with
    | (Normal a, w') => k a w'
    | (Returned v, w') => (Returned v, w')
    | (Thrown e, w') => (Thrown e, w')
    | (Exited c, w') => (Exited c, w')
    | (Suspended, w') => (Suspended, w')
    end.

Definition return_ {A} (v : JSValue) : M A := fun w => (Returned v, w).
Definition throw {A} (e : JSError) : M A := fun w => (Thrown e, w).

Definition gets {A} (f : ServerState -> A) : M A :=
  fun w => (Normal (f (state w)), w).

Definition log (e : event) : M unit :=
  fun w => (Normal tt, {| state := state w; trace := trace w ++ [e] |}).

(** [try { body } catch (e) { h e }]. *)
Definition try_catch {A} (body : M A) (h : JSError -> M A) : M A :=
  fun w =>
    match body w with
    | (Thrown e, w') => h e w'
    | r => r
    end.

(** [try { body } finally { fin }]: [fin] runs when [body] completes in
    any way that hands control back; an abrupt completion of [fin]
    replaces the one of [body]. *)
Definition try_finally {A} (body : M A) (fin : M unit) : M A :=
  fun w =>
    match body w with
    | (Exited c, w') => (Exited c, w')
    | (Suspended, w') => (Suspended, w')
    | (r, w') =>
        match fin w' with
        | (Normal _, w'') => (r, w'')
        | (Returned v, w'') => (Returned v, w'')
        | (Thrown e, w'') => (Thrown e, w'')
        | (Exited c, w'') => (Exited c, w'')
        | (Suspended, w'') => (Suspended, w'')
        end
    end.

(** [process.exit(code)] does not come back. *)
Definition process_exit {A} (code : Z) : M A :=
  fun w => (Exited code,
            {| state := state w; trace := trace w ++ [ProcessExit code] |}).

(** [await p]. *)
Definition await (p : settlement) : M unit :=
  match p with
  | Fulfils => ret tt
  | Rejects => throw HostError
  | Never => fun w => (Suspended, w)
  end.

(** [Promise.all]: rejects as soon as one input rejects, fulfils once all
    have fulfilled, and otherwise stays pending. *)
Definition is_rejects (p : settlement) : bool :=
  match p with Rejects => true | _ => false end.
Definition is_never (p : settlement) : bool :=
  match p with Never => true | _ => false end.
Definition Promise_all (ps : list settlement) : settlement :=
  if existsb is_rejects ps then Rejects
  else if existsb is_never ps then Never
  else Fulfils.

(** Calling an [async] function: the body's completion settles the
    promise the call returns; nothing is thrown to the caller. *)
Definition async_call {A} (body : M A) (w : World) : settlement * World :=
  match body w with
  | (Normal _, w') | (Returned _, w') => (Fulfils, w')
  | (Thrown _, w') => (Rejects, w')
  | (Exited _, w') | (Suspended, w') => (Never, w')
  end.

(** [p.then(onFulfilled, onRejected)]; an argument left out is [None].
    Without the handler for the way [p] settles, the new promise settles
    the way [p] does. *)
Definition then_ (onFulfilled onRejected : option (M JSValue))
           (p : settlement) (w : World) : settlement * World :=
  match p, onFulfilled, onRejected with
  | Fulfils, Some h, _ => async_call h w
  | Rejects, _, Some h => async_call h w
  | _, _, _ => (p, w)
  end.

(** [p.catch(onRejected)] is [p.then(undefined, onRejected)]. *)
Definition catch_ (onRejected : option (M JSValue)) : settlement -> World -> settlement * World :=
  then_ None onRejected.

End Eff.
Import Eff.

Declare Scope eff_scope.
Delimit Scope eff_scope with eff.
Notation "x <- m ;; k" := (bind m (fun x => k))
  (at level 61, m at next level, right associativity) : eff_scope.
Notation "m ;; k" := (bind m (fun _ => k))
  (at level 61, right associativity) : eff_scope.
Open Scope eff_scope.

(* ================================================================== *)
(** ** The methods of [Server] *)

Module Server.

(** [registerRoom]: nothing happens when the name is taken. *)
Definition registerRoom (roomName : jsstring) (handler options : JSValue)
           (st : ServerState) : ServerState :=
  if includes (List.map name (availableRoomTypes st)) (JString roomName)
  then st
  else {| availableRoomTypes :=
            availableRoomTypes st ++
            [{| name := roomName; handler := handler; options := options |}];
          managingRooms := managingRooms st;
          managingRoomIds := managingRoomIds st |}.

Definition onRoomMade (room : Room) (st : ServerState) : ServerState :=
  {| availableRoomTypes := availableRoomTypes st;
     managingRooms := managingRooms st ++ [room];
     managingRoomIds := managingRoomIds st ++ [roomId room] |}.

Definition onRoomDisposed (id : jsstring) (st : ServerState) : ServerState :=
  {| availableRoomTypes := availableRoomTypes st;
     managingRooms :=
       filter (fun room => negb (str_eqb (roomId room) id)) (managingRooms st);
     managingRoomIds :=
       filter (fun r => negb (str_eqb r id)) (managingRoomIds st) |}.

(** First handler of [spawnPubSub]; the constant [PLAYER_LEFT] of
    [constants/PubSubListeners] is a parameter. *)
Definition onPlayerLeft (PLAYER_LEFT : jsstring) (playerId : jsstring) : M unit :=
  log (Emit (JString PLAYER_LEFT) (Str playerId)).

Definition JSON_parse (text : jsstring) : M JSValue :=
  match JSON.parse text with
  | Some v => ret v
  | None => throw SyntaxError
  end.

Definition prop (v : JSValue) (k : string) : M JSValue :=
  match get v (lit k) with
  | inr x => ret x
  | inl e => throw e
  end.

(** Second handler of [spawnPubSub]. *)
Definition onNewRoomMessage (dataAsString : jsstring) : M unit :=
  data <- JSON_parse dataAsString ;;
  room <- prop data "room" ;;
  ids <- gets managingRoomIds ;;
  if truthy room && includes ids room then
    key <- prop data "room" ;;
    client <- prop data "client" ;;
    action <- prop data "action" ;;
    payload <- prop data "data" ;;
    log (Emit key (Stringified (JObject [(lit "client", client);
                                         (lit "action", action);
                                         (lit "data", payload)])))
  else ret tt.

(** [spawnPubSub]: the two subscriptions, by channel;
    [InternalActions.newRoomMessage] is a parameter like [PLAYER_LEFT]. *)
Definition spawnPubSub (PLAYER_LEFT newRoomMessage : jsstring)
  : list (jsstring * (jsstring -> M unit)) :=
  [ (PLAYER_LEFT, onPlayerLeft PLAYER_LEFT);
    (newRoomMessage, onNewRoomMessage) ].

(** [room.dispose()]. *)
Definition call_dispose (room : Room) : M settlement :=
  log (DisposeCalled (roomId room)) ;;
  match dispose room with
  | Throws => throw HostError
  | Returns p => ret p
  end.

(** [rooms.map(room => room.dispose())]. *)
Fixpoint map_dispose (rooms : list Room) : M (list settlement) :=
  match rooms with
  | [] => ret []
  | room :: rest =>
      p <- call_dispose room ;;
      ps <- map_dispose rest ;;
      ret (p :: ps)
  end.

Definition is_uncaughtException (signal : option jsstring) : bool :=
  match signal with
  | Some s => str_eqb s (lit "uncaughtException")
  | None => false
  end.

(** Body of [shutdown]; [signal] is [None] when the argument is left out. *)
Definition shutdown_body (signal : option jsstring) (reason : JSValue) : M unit :=
  (if is_uncaughtException signal && truthy reason
   then log (ConsoleLog reason) else ret tt) ;;
  try_finally
    (try_catch
       (rooms <- gets managingRooms ;;
        if Nat.eqb (List.length rooms) 0 then return_ JUndefined
        else
          ps <- map_dispose rooms ;;
          await (Promise_all ps))
       (fun e => return_ JUndefined))
    (log ServerClose ;; process_exit 0).

Definition shutdown (signal : option jsstring) (reason : JSValue)
  : World -> settlement * World :=
  async_call (shutdown_body signal reason).

(** [gracefullyShutdown]: [this.shutdown().then().catch()]. *)
Definition gracefullyShutdown_of (shutdown_promise : settlement) (w : World)
  : settlement * World :=
  let '(p1, w1) := then_ None None shutdown_promise w in
  catch_ None p1 w1.

Definition gracefullyShutdown (w : World) : settlement * World :=
  let '(p, w0) := shutdown None JUndefined w in
  gracefullyShutdown_of p w0.

End Server.
Import Server.

(* ================================================================== *)
(** ** Call sequences and the vocabulary of the statements *)

Module Run.

(** A sequence of [registerRoom] calls, each given by its three arguments. *)
Definition register (call : AvailableRoomType) (st : ServerState) : ServerState :=
  registerRoom (name call) (handler call) (options call) st.

Definition register_all (calls : list AvailableRoomType) (st : ServerState)
  : ServerState :=
  fold_left (fun s call => register call s) calls st.

(** The names the registry holds. *)
Definition names (st : ServerState) : list jsstring :=
  List.map name (availableRoomTypes st).

(** The first entry of a list that carries a given name. *)
Definition named (n : jsstring) (l : list AvailableRoomType)
  : option AvailableRoomType :=
  find (fun t => str_eqb n (name t)) l.

(** The two callbacks handed to [ConnectionHandler]. *)
Inductive room_event : Type :=
| Made (room : Room)
| Disposed (id : jsstring).

Definition step (e : room_event) (st : ServerState) : ServerState :=
  match e with
  | Made room => onRoomMade room st
  | Disposed id => onRoomDisposed id st
  end.

Definition run (evs : list room_event) (st : ServerState) : ServerState :=
  fold_left (fun s e => step e s) evs st.

(** [onRoomMade] is only called with an id that is not live at that time. *)
Fixpoint fresh (evs : list room_event) (st : ServerState) : bool :=
  match evs with
  | [] => true
  | e :: rest =>
      match e with
      | Made room => negb (includes (managingRoomIds st) (JString (roomId room)))
      | Disposed _ => true
      end && fresh rest (step e st)
  end.

(** The instances a state holds under an id. *)
Definition instances (id : jsstring) (st : ServerState) : list Room :=
  filter (fun room => str_eqb (roomId room) id) (managingRooms st).

Definition consistent (st : ServerState) : Prop :=
  (forall id, In id (managingRoomIds st) -> List.length (instances id st) = 1) /\
  (forall room, In room (managingRooms st) ->
                In (roomId room) (managingRoomIds st)).

(** The two lists run in parallel and no id is repeated. *)
Definition parallel (st : ServerState) : Prop :=
  List.map roomId (managingRooms st) = managingRoomIds st /\
  NoDup (managingRoomIds st).

(** Classification of the hooks. *)
Definition throws (room : Room) : bool :=
  match dispose room with Throws => true | Returns _ => false end.
Definition rejects (room : Room) : bool :=
  match dispose room with Returns Rejects => true | _ => false end.
Definition fulfils (room : Room) : bool :=
  match dispose room with Returns Fulfils => true | _ => false end.
Definition hangs (room : Room) : bool :=
  match dispose room with Returns Never => true | _ => false end.

(** The rooms whose hook [map] gets to call: all of them up to and
    including the first whose hook throws. *)
Fixpoint invoked (rooms : list Room) : list Room :=
  match rooms with
  | [] => []
  | room :: rest => room :: (if throws room then [] else invoked rest)
  end.

Definition disposals (rooms : list Room) : list event :=
  List.map (fun room => DisposeCalled (roomId room)) rooms.

(** What [Promise.all] is given when no hook throws. *)
Definition fates (rooms : list Room) : list settlement :=
  List.map (fun room => match dispose room with
                        | Returns p => p
                        | Throws => Fulfils
                        end) rooms.

(** What [shutdown] prints first. *)
Definition logged (signal : option jsstring) (reason : JSValue) : list event :=
  if is_uncaughtException signal && truthy reason then [ConsoleLog reason] else [].

(** The hooks let the drain end: one throws or rejects, or all fulfil. *)
Definition drains (rooms : list Room) : bool :=
  existsb throws rooms || existsb rejects rooms || forallb fulfils rooms.

(** Field of a decoded envelope, [undefined] where it cannot be read. *)
Definition field (data : JSValue) (k : string) : JSValue :=
  match get data (lit k) with inr v => v | inl _ => JUndefined end.

(** The text [onNewRoomMessage] hands to the emitter for an envelope. *)
Definition relayed (data : JSValue) : emit_arg :=
  Stringified (JObject [(lit "client", field data "client");
                        (lit "action", field data "action");
                        (lit "data", field data "data")]).

(** The envelope names a room this process may act on. *)
Definition addressed_to (ids : list jsstring) (data : JSValue) (r : jsstring)
  : Prop :=
  get data (lit "room") = inr (JString r) /\ r <> [] /\ In r ids.

(** Appending to the trace of a world. *)
Definition with_events (w : World) (evs : list event) : World :=
  {| state := state w; trace := trace w ++ evs |}.

End Run.
Import Run.

(* ================================================================== *)
(** ** Readings of the specification that the code does not meet *)

Module Reading.

(** Filtering by membership alone: an envelope is relayed exactly when its
    [room] is one of [managingRoomIds]. *)
Definition relay_iff_member : Prop :=
  forall (w : World) (text : jsstring) (data : JSValue) (r : jsstring),
    JSON.parse text = Some data ->
    get data (lit "room") = inr (JString r) ->
    (In r (managingRoomIds (state w)) <->
     trace (snd (onNewRoomMessage text w)) =
     trace w ++ [Emit (JString r) (relayed data)]).

(** An undecodable payload is dropped: the handler ends normally. *)
Definition malformed_dropped : Prop :=
  forall (w : World) (text : jsstring),
    JSON.parse text = None ->
    onNewRoomMessage text w = (Normal tt, w).

(** A drain of one or more rooms always ends: every hook is called, the
    socket is closed and the process exits, also when a hook never
    settles. *)
Definition drain_bounded : Prop :=
  forall (w : World) (signal : option jsstring) (reason : JSValue),
    managingRooms (state w) <> [] ->
    let '(c, w') := shutdown_body signal reason w in
    c = Exited 0%Z /\
    (forall room, In room (managingRooms (state w)) ->
                  In (DisposeCalled (roomId room)) (trace w')) /\
    In ServerClose (trace w').

(** Whatever becomes of the promise of [shutdown], the promise of
    [gracefullyShutdown] does not reject. *)
Definition rejection_swallowed : Prop :=
  forall (p : settlement) (w : World),
    fst (gracefullyShutdown_of p w) <> Rejects.

End Reading.

(* ================================================================== *)
(** ** Sample inputs *)

Module Sample.

(** A JSON text, written with apostrophes where the text has quotation
    marks. *)
Definition json (s : string) : jsstring :=
  List.map (fun c => if N.eqb c 39 then 34%N else c) (lit s).

Definition room (id : string) (hook : call_result) : Room :=
  {| roomId := lit id; dispose := hook |}.

Definition world (st : ServerState) : World := {| state := st; trace := [] |}.

(** A process that manages the single room [r1]. *)
Definition owns_r1 : ServerState :=
  onRoomMade (room "r1" (Returns Fulfils)) initial.

(** A process that manages a single room whose id is the empty string. *)
Definition owns_unnamed : ServerState :=
  onRoomMade (room "" (Returns Fulfils)) initial.

Definition say_hi_r1 : jsstring :=
  json "{'client':{'id':'p1'},'room':'r1','action':'say','data':'hi'}".

Definition say_hi_unnamed : jsstring :=
  json "{'client':{'id':'p1'},'room':'','action':'say','data':'hi'}".

Definition not_json : jsstring := lit "not json".

Definition chat (h : N) : AvailableRoomType :=
  {| name := lit "Chat"; handler := JHost h; options := JUndefined |}.

(** Two rooms: the hook of the first never settles, the one of the second
    rejects. *)
Definition stuck_and_failing : ServerState :=
  onRoomMade (room "b" (Returns Rejects))
    (onRoomMade (room "a" (Returns Never)) initial).

(** One room whose hook never settles. *)
Definition stuck : ServerState :=
  onRoomMade (room "a" (Returns Never)) initial.

End Sample.

(* ================================================================== *)
(** ** Signals, and all the mutators together *)

Module Lifecycle.



(** A call of one of the three methods that write to the state. *)
Inductive call : Type :=
| Register (t : AvailableRoomType)
| RoomEvent (e : room_event).

Definition invoke (c : call) (st : ServerState) : ServerState :=
  match c with
  | Register t => register t st
  | RoomEvent e => step e st
  end.

Definition invoke_all (calls : list call) (st : ServerState) : ServerState :=
  fold_left (fun s c => invoke c s) calls st.

(** The registrations among some calls, and the room events among them. *)
Fixpoint registrations (calls : list call) : list AvailableRoomType :=
  match calls with
  | [] => []
  | Register t :: rest => t :: registrations rest
  | RoomEvent _ :: rest => registrations rest
  end.

Fixpoint room_events (calls : list call) : list room_event :=
  match calls with
  | [] => []
  | Register _ :: rest => room_events rest
  | RoomEvent e :: rest => e :: room_events rest
  end.

(** The calls of a list that are the first under their name, given the
    names already seen. *)
Fixpoint firsts (seen : list jsstring) (calls : list AvailableRoomType)
  : list AvailableRoomType :=
  match calls with
  | [] => []
  | t :: rest =>
      if includes seen (JString (name t)) then firsts seen rest
      else t :: firsts (seen ++ [name t]) rest
  end.

(** The value is one [JSON.parse] can return. *)
Definition is_json (v : JSValue) : bool :=
  match v with
  | JUndefined | JHost _ => false
  | _ => true
  end.

(** A world with a given state and trace. *)
Definition at_state (st : ServerState) (tr : list event) : World :=
  {| state := st; trace := tr |}.

End Lifecycle.
Import Lifecycle.

(* ================================================================== *)
(** ** More sample inputs *)

Module Scenario.

Import Sample.

(** A process that manages the single room [r2]. *)
Definition owns_r2 : ServerState :=
  onRoomMade (room "r2" (Returns Fulfils)) initial.

(** Three rooms: the hook of [a] fulfils, the one of [b] throws, the one
    of [c] never settles. *)
Definition room_a : Room := room "a" (Returns Fulfils).
Definition room_b : Room := room "b" Throws.
Definition room_c : Room := room "c" (Returns Never).

Definition a_b_c : ServerState :=
  onRoomMade room_c (onRoomMade room_b (onRoomMade room_a initial)).

(** A registration, two rooms made, the first disposed of. *)
Definition busy : list call :=
  [Register (chat 1); RoomEvent (Made room_a); RoomEvent (Made room_c);
   RoomEvent (Disposed (lit "a"))].

Definition lobby (h : N) : AvailableRoomType :=
  {| name := lit "Lobby"; handler := JHost h; options := JNull |}.

End Scenario.

(* ================================================================== *)
(** * Properties *)

(** ** Strings *)

Lemma str_eqb_eq (a b : jsstring) : str_eqb a b = true <-> a = b.
Proof.
  revert b; induction a as [|x a IH]; intros [|y b]; simpl; split;
    try discriminate; try reflexivity; intro H.
  - apply andb_true_iff in H as [Hx Hr].
    apply N.eqb_eq in Hx. apply IH in Hr. congruence.
  - injection H as -> ->. rewrite N.eqb_refl. simpl. now apply IH.
Qed.

Lemma str_eqb_refl (a : jsstring) : str_eqb a a = true.
Proof. now apply str_eqb_eq. Qed.

Lemma str_eqb_neq (a b : jsstring) : str_eqb a b = false <-> a <> b.
Proof.
  rewrite <- str_eqb_eq. destruct (str_eqb a b); split; congruence.
Qed.

Lemma includes_In (ids : list jsstring) (s : jsstring) :
  includes ids (JString s) = true <-> In s ids.
Proof.
  simpl. rewrite existsb_exists. split.
  - intros [x [Hx He]]. apply str_eqb_eq in He. now subst.
  - intro H. exists s. split; [assumption | apply str_eqb_refl].
Qed.

(** ** [JSON.parse] never runs out of fuel *)

Section ParserFuel.

Import JSON.

Lemma skip_ws_length (s : jsstring) :
  List.length (skip_ws s) <= List.length s.
Proof.
  induction s as [|c r IH]; simpl; [lia|].
  destruct (is_ws c); simpl; lia.
Qed.

Lemma skip_ws_cons (s r : jsstring) (c : code_unit) :
  skip_ws s = c :: r -> List.length r < List.length s.
Proof.
  intro E. pose proof (skip_ws_length s) as H. rewrite E in H. simpl in H. lia.
Qed.

Lemma string_body_length (s acc str r : jsstring) :
  string_body s acc = Some (str, r) -> List.length r < List.length s.
Proof.
  remember (List.length s) as n eqn:Hn.
  assert (Hle : List.length s <= n) by lia. clear Hn.
  revert s acc Hle. induction n as [|n IH]; intros s acc Hle H.
  - destruct s; simpl in *; [discriminate | lia].
  - destruct s as [|c s]; simpl in H; [discriminate|].
    simpl in Hle.
    destruct (N.eqb c 34).
    { injection H as _ <-. simpl. lia. }
    destruct (N.eqb c 92).
    + destruct s as [|e s1]; [discriminate|].
      destruct (N.eqb e 117).
      * destruct s1 as [|h1 [|h2 [|h3 [|h4 s2]]]]; try discriminate.
        destruct (hex4 h1 h2 h3 h4); [|discriminate].
        apply IH in H; simpl in *; lia.
      * destruct (simple_escape e); [|discriminate].
        apply IH in H; simpl in *; lia.
    + destruct (N.ltb c 32); [discriminate|].
      apply IH in H; simpl in *; lia.
Qed.

Lemma digits_length (s : jsstring) (acc : N) (n : nat) v m r :
  digits s acc n = (v, m, r) -> List.length r <= List.length s.
Proof.
  revert acc n. induction s as [|c s IH]; intros acc n H; simpl in H.
  - injection H as _ _ <-. simpl. lia.
  - destruct (is_digit c).
    + apply IH in H. simpl. lia.
    + injection H as _ _ <-. simpl. lia.
Qed.

Lemma int_part_length (s r : jsstring) (v : N) :
  int_part s = Some (v, r) -> List.length r < List.length s.
Proof.
  destruct s as [|c s]; simpl; [discriminate|].
  destruct (N.eqb c 48).
  - intro H. injection H as _ <-. lia.
  - destruct (is_digit c); [|discriminate].
    destruct (digits s (c - 48)%N 0) as [[v' m] r'] eqn:E.
    intro H. injection H as _ <-.
    apply digits_length in E. lia.
Qed.

Lemma frac_part_length (s r : jsstring) (c c' : N) (n : nat) :
  frac_part c s = Some (c', n, r) -> List.length r <= List.length s.
Proof.
  destruct s as [|d s]; simpl.
  - intro H. injection H as _ _ <-. simpl. lia.
  - destruct (N.eqb d 46).
    + destruct (digits s c 0) as [[v m] r'] eqn:E.
      apply digits_length in E.
      destruct m; [discriminate|].
      intro H. injection H as _ _ <-. lia.
    + intro H. injection H as _ _ <-. simpl. lia.
Qed.

Lemma exp_part_length (s r : jsstring) (e : Z) :
  exp_part s = Some (e, r) -> List.length r <= List.length s.
Proof.
  destruct s as [|x s]; simpl.
  - intro H. injection H as _ <-. simpl. lia.
  - destruct (N.eqb x 101 || N.eqb x 69).
    + assert (Hs : forall sgn r0,
                 List.length r0 <= List.length s ->
                 match digits r0 0 0 with
                 | (_, O, _) => None
                 | (v, S _, r1) =>
                     Some (if sgn : bool then (- Z.of_N v)%Z else Z.of_N v, r1)
                 end = Some (e, r) -> List.length r <= S (List.length s)).
      { intros sgn r0 Hr0. destruct (digits r0 0 0) as [[v m] r1] eqn:E.
        apply digits_length in E. destruct m; [discriminate|].
        intro H. injection H as _ <-. lia. }
      destruct s as [|y s']; [apply (Hs false); simpl; lia|].
      destruct (N.eqb y 45); [apply (Hs true); simpl; lia|].
      destruct (N.eqb y 43); [apply (Hs false); simpl; lia|].
      apply (Hs false); simpl; lia.
    + intro H. injection H as _ <-. simpl. lia.
Qed.

Lemma number_length (s r : jsstring) (v : JSValue) :
  number s = Some (v, r) -> List.length r < List.length s.
Proof.
  unfold number.
  assert (Hs : forall neg s0,
             List.length s0 <= List.length s ->
             match int_part s0 with
             | None => None
             | Some (i, s1) =>
                 match frac_part i s1 with
                 | None => None
                 | Some (c, nfrac, s2) =>
                     match exp_part s2 with
                     | None => None
                     | Some (e, s3) =>
                         Some (JNumber neg c (e - Z.of_nat nfrac), s3)
                     end
                 end
             end = Some (v, r) -> List.length r < List.length s).
  { intros neg s0 Hs0.
    destruct (int_part s0) as [[i s1]|] eqn:Ei; [|discriminate].
    destruct (frac_part i s1) as [[[c nf] s2]|] eqn:Ef; [|discriminate].
    destruct (exp_part s2) as [[e s3]|] eqn:Ee; [|discriminate].
    intro H. injection H as _ <-.
    apply int_part_length in Ei. apply frac_part_length in Ef.
    apply exp_part_length in Ee. lia. }
  destruct s as [|c s']; [apply (Hs false); lia|].
  destruct (N.eqb c 45); [apply (Hs true); simpl; lia | apply (Hs false); lia].
Qed.

Lemma strip_length (p s r : jsstring) :
  strip p s = Some r -> List.length r <= List.length s.
Proof.
  revert s; induction p as [|x p IH]; intros [|y s]; simpl; intro H;
    try discriminate; try (injection H as <-; simpl; lia).
  destruct (N.eqb x y); [|discriminate]. apply IH in H. lia.
Qed.

(** Facts on lengths that the equations in the context give. *)
Ltac lengths :=
  repeat match goal with
    | H : skip_ws _ = _ :: _ |- _ => apply skip_ws_cons in H
    | H : string_body _ _ = Some _ |- _ => apply string_body_length in H
    | H : number _ = Some _ |- _ => apply number_length in H
    | H : strip _ _ = Some _ |- _ => apply strip_length in H
    end.

Ltac break_hyp :=
  match goal with
  | H : match ?x with _ => _ end = POk _ _ |- _ =>
      destruct x eqn:?; try discriminate H
  end.

Ltac break_goal :=
  match goal with
  | |- context [match ?x with _ => _ end] => destruct x eqn:?
  end.

(** A successful parse consumes at least one code unit. *)
Lemma parse_consumes (fuel : nat) :
  (forall s v r, value fuel s = POk v r -> List.length r < List.length s) /\
  (forall s acc v r,
      elements fuel s acc = POk v r -> List.length r < List.length s) /\
  (forall s acc v r,
      members fuel s acc = POk v r -> List.length r < List.length s).
Proof.
  induction fuel as [|f [IHv [IHe IHm]]];
    [repeat split; intros; discriminate|].
  repeat split.
  - intros s v r H. cbn [value] in H. repeat break_hyp;
      try (apply IHe in H); try (apply IHm in H);
      try (injection H as _ <-); lengths; simpl in *; lia.
  - intros s acc v r H. cbn [elements] in H. repeat break_hyp;
      try (apply IHe in H); try (injection H as _ <-);
      match goal with E : value f _ = POk _ _ |- _ => apply IHv in E end;
      lengths; simpl in *; lia.
  - intros s acc v r H. cbn [members] in H. repeat break_hyp;
      try (apply IHm in H); try (injection H as _ <-);
      match goal with E : value f _ = POk _ _ |- _ => apply IHv in E end;
      lengths; simpl in *; lia.
Qed.

Lemma value_consumes fuel s v r :
  value fuel s = POk v r -> List.length r < List.length s.
Proof. apply (parse_consumes fuel). Qed.

(** Fuel of twice the length of the text (and a little) is never used up. *)
Lemma parse_fuel (fuel : nat) :
  (forall s, 2 * List.length s + 1 <= fuel -> value fuel s <> PFuel) /\
  (forall s acc,
      2 * List.length s + 2 <= fuel -> elements fuel s acc <> PFuel) /\
  (forall s acc,
      2 * List.length s + 2 <= fuel -> members fuel s acc <> PFuel).
Proof.
  induction fuel as [|f [IHv [IHe IHm]]];
    [repeat split; intros; simpl in *; lia|].
  repeat split.
  - intros s Hf. cbn [value]. repeat break_goal; try discriminate;
      lengths; [apply IHm | apply IHe]; simpl in *; lia.
  - intros s acc Hf. cbn [elements]. repeat break_goal; try discriminate.
    + match goal with E : value f _ = POk _ _ |- _ =>
        apply value_consumes in E end.
      lengths. apply IHe. simpl in *; lia.
    + match goal with E : value f _ = PFuel |- _ =>
        apply IHv in E; [contradiction | lia] end.
  - intros s acc Hf. cbn [members]. repeat break_goal; try discriminate.
    + match goal with E : value f _ = POk _ _ |- _ =>
        apply value_consumes in E end.
      lengths. apply IHm. simpl in *; lia.
    + lengths.
      match goal with E : value f _ = PFuel |- _ =>
        apply IHv in E; [contradiction | simpl in *; lia] end.
Qed.

(** The fuel [JSON.parse] starts with is enough for every text, so [None]
    always stands for a text outside the grammar. *)
Lemma parse_never_out_of_fuel (text : jsstring) :
  value (2 * List.length text + 1) text <> PFuel.
Proof. apply (parse_fuel (2 * List.length text + 1)). lia. Qed.

End ParserFuel.

(** ** [JSON.parse] on sample texts *)

Section ParserCases.

Import Sample.

Example parse_envelope :
  JSON.parse say_hi_r1 =
  Some (JObject [(lit "client", JObject [(lit "id", JString (lit "p1"))]);
                 (lit "room", JString (lit "r1"));
                 (lit "action", JString (lit "say"));
                 (lit "data", JString (lit "hi"))]).
Proof. vm_compute. reflexivity. Qed.

Example parse_nested :
  JSON.parse (json " [1, -2.50e3, true, null, [], {'a':1,'a':2}] ") =
  Some (JArray [JNumber false 1 0; JNumber true 250 1; JBool true; JNull;
                JArray []; JObject [(lit "a", JNumber false 2 0)]]).
Proof. vm_compute. reflexivity. Qed.

Example parse_escapes :
  JSON.parse (json "'\u0041\n'") = Some (JString [65; 10]%N).
Proof. vm_compute. reflexivity. Qed.

Example parse_rejects :
  List.map JSON.parse
    [not_json; lit ""; json "[1,]"; json "{'a':1,}"; json "01"; json "1.";
     json "'a"; json "{a:1}"; json "1 2"; json "tru"] =
  [None; None; None; None; None; None; None; None; None; None].
Proof. vm_compute. reflexivity. Qed.

Example truthy_numbers :
  List.map (option_map truthy)
    [JSON.parse (json "5e-324"); JSON.parse (json "1e-400");
     JSON.parse (json "-0"); JSON.parse (json "0.0e9")] =
  [Some true; Some false; Some false; Some false].
Proof. vm_compute. reflexivity. Qed.

End ParserCases.

(** ** The registry of room types *)

Section Registry.

Implicit Types (st : ServerState) (n m : jsstring) (h o : JSValue).

Lemma registerRoom_taken st n h o :
  In n (names st) -> registerRoom n h o st = st.
Proof.
  intro H. unfold registerRoom.
  apply includes_In in H. unfold names in H. now rewrite H.
Qed.

Lemma registerRoom_free st n h o :
  ~ In n (names st) ->
  availableRoomTypes (registerRoom n h o st) =
  availableRoomTypes st ++ [{| name := n; handler := h; options := o |}].
Proof.
  intro H. unfold registerRoom.
  destruct (includes (List.map name (availableRoomTypes st)) (JString n)) eqn:E.
  - apply includes_In in E. contradiction.
  - reflexivity.
Qed.

Lemma registerRoom_rooms st n h o :
  managingRooms (registerRoom n h o st) = managingRooms st /\
  managingRoomIds (registerRoom n h o st) = managingRoomIds st.
Proof.
  unfold registerRoom.
  destruct (includes _ _); split; reflexivity.
Qed.

Lemma named_none n (l : list AvailableRoomType) :
  named n l = None <-> ~ In n (List.map name l).
Proof.
  unfold named. induction l as [|t l IH]; simpl.
  - tauto.
  - destruct (str_eqb n (name t)) eqn:E.
    + apply str_eqb_eq in E. split; [discriminate | intro H; exfalso; auto].
    + apply str_eqb_neq in E. rewrite IH. split.
      * intros H [H1 | H1]; [congruence | contradiction].
      * intros H H1. apply H. now right.
Qed.

Lemma named_app n (l l' : list AvailableRoomType) :
  named n (l ++ l') =
  match named n l with Some t => Some t | None => named n l' end.
Proof.
  unfold named. induction l as [|t l IH]; simpl; [reflexivity|].
  now destruct (str_eqb n (name t)).
Qed.

(** One call: an entry that is there stays, a new name gets the call. *)
Lemma named_register (call : AvailableRoomType) st m :
  named m (availableRoomTypes (register call st)) =
  match named m (availableRoomTypes st) with
  | Some t => Some t
  | None => named m [call]
  end.
Proof.
  unfold register.
  destruct (in_dec (list_eq_dec N.eq_dec) (name call) (names st)) as [Hin | Hout].
  - rewrite registerRoom_taken by assumption.
    destruct (named m (availableRoomTypes st)) eqn:E; [reflexivity|].
    unfold named; simpl.
    destruct (str_eqb m (name call)) eqn:E'; [|reflexivity].
    apply str_eqb_eq in E'. subst m.
    apply named_none in E. contradiction.
  - rewrite registerRoom_free by assumption.
    rewrite named_app. destruct call; reflexivity.
Qed.

Lemma named_register_all (calls : list AvailableRoomType) st m :
  named m (availableRoomTypes (register_all calls st)) =
  match named m (availableRoomTypes st) with
  | Some t => Some t
  | None => named m calls
  end.
Proof.
  revert st. induction calls as [|call calls IH]; intro st; simpl.
  - now destruct (named m (availableRoomTypes st)).
  - unfold register_all in *. simpl. rewrite IH, named_register.
    destruct (named m (availableRoomTypes st)); [reflexivity|].
    unfold named; simpl. now destruct (str_eqb m (name call)).
Qed.

Lemma register_NoDup (call : AvailableRoomType) st :
  NoDup (names st) -> NoDup (names (register call st)).
Proof.
  intro H. unfold register.
  destruct (in_dec (list_eq_dec N.eq_dec) (name call) (names st)) as [Hin | Hout].
  - now rewrite registerRoom_taken.
  - unfold names. rewrite registerRoom_free by assumption.
    rewrite map_app. simpl.
    apply NoDup_app; [assumption | repeat constructor; intros [] |].
    intros x Hx [<- | []]. contradiction.
Qed.

Lemma register_all_NoDup (calls : list AvailableRoomType) st :
  NoDup (names st) -> NoDup (names (register_all calls st)).
Proof.
  revert st. induction calls as [|call calls IH]; intros st H; simpl.
  - assumption.
  - apply IH. now apply register_NoDup.
Qed.

Lemma register_all_rooms (calls : list AvailableRoomType) st :
  managingRooms (register_all calls st) = managingRooms st /\
  managingRoomIds (register_all calls st) = managingRoomIds st.
Proof.
  revert st. induction calls as [|call calls IH]; intro st; simpl.
  - split; reflexivity.
  - destruct (IH (register call st)) as [-> ->]. apply registerRoom_rooms.
Qed.

(** C3.  After any sequence of [registerRoom] calls on a new server, a
    further call under a name that is already in [availableRoomTypes]
    leaves the whole state as it is; no name occurs twice in the registry;
    and the entry found under a name is the first call made with that name
    (none when there was no such call). *)
Theorem registerRoom_first_wins
        (calls : list AvailableRoomType) (n : jsstring) (h o : JSValue) :
  let st := register_all calls initial in
  (In n (List.map name (availableRoomTypes st)) -> registerRoom n h o st = st) /\
  NoDup (List.map name (availableRoomTypes st)) /\
  named n (availableRoomTypes st) = named n calls.
Proof.
  intro st. split; [|split].
  - apply registerRoom_taken.
  - apply (register_all_NoDup calls initial). constructor.
  - unfold st. now rewrite named_register_all.
Qed.

End Registry.

(** ** The set of managed rooms *)

Section ManagedRooms.

Implicit Types (st : ServerState) (id : jsstring) (room : Room).

Lemma map_filter_roomId id (rooms : list Room) :
  List.map roomId (filter (fun room => negb (str_eqb (roomId room) id)) rooms) =
  filter (fun r => negb (str_eqb r id)) (List.map roomId rooms).
Proof.
  induction rooms as [|room rooms IH]; simpl; [reflexivity|].
  destruct (str_eqb (roomId room) id); simpl; now rewrite IH.
Qed.

Lemma parallel_step (e : room_event) st :
  fresh [e] st = true -> parallel st -> parallel (step e st).
Proof.
  intros Hf [Hmap Hnd]. destruct e as [room | id]; simpl in *.
  - rewrite andb_true_r in Hf. apply negb_true_iff in Hf.
    split.
    + unfold onRoomMade; simpl. rewrite map_app, Hmap. reflexivity.
    + unfold onRoomMade; simpl.
      apply NoDup_app; [assumption | repeat constructor; intros [] |].
      intros x Hx [<- | []].
      apply includes_In in Hx. simpl in Hx. congruence.
  - split.
    + unfold onRoomDisposed; simpl. now rewrite map_filter_roomId, Hmap.
    + unfold onRoomDisposed; simpl. now apply NoDup_filter.
Qed.

Lemma parallel_run (evs : list room_event) st :
  fresh evs st = true -> parallel st -> parallel (run evs st).
Proof.
  revert st. induction evs as [|e evs IH]; intros st Hf Hp; [assumption|].
  simpl in Hf. apply andb_true_iff in Hf as [He Hrest].
  unfold run; simpl. apply IH; [assumption|].
  apply parallel_step; [|assumption]. simpl. now rewrite He.
Qed.

Lemma one_instance id (rooms : list Room) :
  NoDup (List.map roomId rooms) -> In id (List.map roomId rooms) ->
  List.length (filter (fun room => str_eqb (roomId room) id) rooms) = 1.
Proof.
  induction rooms as [|room rooms IH]; simpl; intros Hnd Hin; [contradiction|].
  inversion Hnd as [|x l Hnot Hnd']; subst.
  destruct (str_eqb (roomId room) id) eqn:E.
  - apply str_eqb_eq in E. subst id. simpl. f_equal.
    destruct (filter _ rooms) as [|r l] eqn:F; [reflexivity|].
    exfalso. apply Hnot.
    assert (Hr : In r (filter (fun room0 => str_eqb (roomId room0) (roomId room)) rooms))
      by (rewrite F; now left).
    apply filter_In in Hr as [Hr He]. apply str_eqb_eq in He.
    rewrite <- He. now apply in_map.
  - apply str_eqb_neq in E. destruct Hin as [H | H]; [contradiction|].
    now apply IH.
Qed.

Lemma parallel_consistent st : parallel st -> consistent st.
Proof.
  intros [Hmap Hnd]. split.
  - intros id Hin. unfold instances. rewrite <- Hmap in *.
    now apply one_instance.
  - intros room Hin. rewrite <- Hmap. now apply in_map.
Qed.

(** C5.  On a new server, after any sequence of [onRoomMade] and
    [onRoomDisposed] calls in which [onRoomMade] is never called with an id
    that is live at that moment, every id of [managingRoomIds] has exactly
    one instance with that [roomId] in [managingRooms], every instance of
    [managingRooms] has its [roomId] in [managingRoomIds], and the ids are
    those of the instances, in the same order. *)
Theorem managed_rooms_consistent (evs : list room_event) :
  fresh evs initial = true ->
  consistent (run evs initial) /\
  List.map roomId (managingRooms (run evs initial)) =
  managingRoomIds (run evs initial).
Proof.
  intro Hf.
  assert (Hp : parallel (run evs initial)).
  { apply parallel_run; [assumption|]. split; [reflexivity | constructor]. }
  split; [now apply parallel_consistent | apply Hp].
Qed.

End ManagedRooms.

(** ** The bridge *)

Section Bridge.

Implicit Types (w : World) (text : jsstring) (data : JSValue).

Lemma with_events_nil w : with_events w [] = w.
Proof. destruct w; unfold with_events; simpl. now rewrite app_nil_r. Qed.

(** Only an object has a [room] that is a string, and all its fields can
    be read. *)
Lemma get_string_object data r :
  get data (lit "room") = inr (JString r) ->
  forall k, get data (lit k) = inr (field data k).
Proof.
  intros H k. unfold field.
  destruct data; simpl in *; try discriminate; reflexivity.
Qed.

(** The guard of the handler, in terms of the envelope. *)
Lemma guard_true (ids : list jsstring) (room : JSValue) :
  truthy room && includes ids room = true <->
  exists r, room = JString r /\ r <> [] /\ In r ids.
Proof.
  split.
  - intro H. apply andb_true_iff in H as [Ht Hi].
    destruct room; try discriminate.
    exists s. split; [reflexivity|]. split.
    + destruct s; [discriminate | discriminate].
    + now apply includes_In.
  - intros [r [-> [Hne Hin]]]. apply andb_true_iff. split.
    + destruct r; [contradiction | reflexivity].
    + now apply includes_In.
Qed.

(** C1, as the code has it.  For every decodable envelope: when its [room]
    is a non-empty string that belongs to [managingRoomIds], the handler
    emits once, under that room id, the text of [{client, action, data}],
    ends normally and leaves the server state as it was; for every other
    decodable envelope nothing is emitted and the state is unchanged. *)
Theorem room_message_relay w text data :
  JSON.parse text = Some data ->
  (forall r, addressed_to (managingRoomIds (state w)) data r ->
             onNewRoomMessage text w =
             (Normal tt, with_events w [Emit (JString r) (relayed data)])) /\
  ((forall r, ~ addressed_to (managingRoomIds (state w)) data r) ->
   snd (onNewRoomMessage text w) = w).
Proof.
  intro Hp. unfold onNewRoomMessage, JSON_parse. rewrite Hp.
  cbv [bind prop gets ret throw]. split.
  - intros r [Hget [Hne Hin]].
    pose proof (get_string_object data Hget) as Hf.
    assert (Hg : truthy (JString r) &&
                 includes (managingRoomIds (state w)) (JString r) = true)
      by (apply guard_true; eauto).
    rewrite Hget. cbv beta iota. rewrite Hg, !Hf. reflexivity.
  - intro Hnone.
    destruct (get data (lit "room")) as [e | room] eqn:Hget; [reflexivity|].
    cbv beta iota.
    destruct (truthy room && includes (managingRoomIds (state w)) room) eqn:Hg.
    + apply guard_true in Hg as [r [-> [Hne Hin]]].
      exfalso. apply (Hnone r). repeat split; assumption.
    + reflexivity.
Qed.

(** C9.  A decodable envelope whose [room] is falsy (the empty string,
    [null], absent, ...) is never relayed, whatever [managingRoomIds]
    holds: the handler ends normally without an emit or a state change. *)
Theorem falsy_room_never_relayed w text data (room : JSValue) :
  JSON.parse text = Some data ->
  get data (lit "room") = inr room ->
  truthy room = false ->
  onNewRoomMessage text w = (Normal tt, w).
Proof.
  intros Hp Hget Hfalsy.
  unfold onNewRoomMessage, JSON_parse. rewrite Hp.
  cbv [bind prop gets ret throw]. rewrite Hget. cbv beta iota.
  now rewrite Hfalsy.
Qed.

(** C4, as the code has it.  A payload that is not a JSON text makes the
    handler throw [SyntaxError]; nothing is emitted and the server state is
    unchanged. *)
Theorem undecodable_payload_throws w text :
  JSON.parse text = None ->
  onNewRoomMessage text w = (Thrown SyntaxError, w).
Proof.
  intro Hp. unfold onNewRoomMessage, JSON_parse, bind. now rewrite Hp.
Qed.

(** C7.  [spawnPubSub] subscribes a handler to the [PLAYER_LEFT] channel
    that, for every player id and in every state, emits that id under
    the [PLAYER_LEFT] key, ends normally and leaves the state as it was. *)
Theorem player_left_relayed (PLAYER_LEFT newRoomMessage playerId : jsstring) w :
  exists h,
    hd_error (spawnPubSub PLAYER_LEFT newRoomMessage) = Some (PLAYER_LEFT, h) /\
    h playerId w =
    (Normal tt, with_events w [Emit (JString PLAYER_LEFT) (Str playerId)]).
Proof.
  exists (onPlayerLeft PLAYER_LEFT). split; reflexivity.
Qed.

End Bridge.

Section BridgeCases.

Import Sample Reading.

(** Witness of C1: the owner of [r1] relays an envelope for [r1], and the
    same envelope is ignored by a process that manages nothing. *)
Lemma room_message_relay_r1 :
  onNewRoomMessage say_hi_r1 (world owns_r1) =
  (Normal tt,
   with_events (world owns_r1)
     [Emit (JString (lit "r1"))
        (Stringified
           (JObject [(lit "client", JObject [(lit "id", JString (lit "p1"))]);
                     (lit "action", JString (lit "say"));
                     (lit "data", JString (lit "hi"))]))]) /\
  snd (onNewRoomMessage say_hi_r1 (world initial)) = world initial.
Proof.
  pose (data := JObject [(lit "client", JObject [(lit "id", JString (lit "p1"))]);
                         (lit "room", JString (lit "r1"));
                         (lit "action", JString (lit "say"));
                         (lit "data", JString (lit "hi"))]).
  assert (Hp : JSON.parse say_hi_r1 = Some data) by (vm_compute; reflexivity).
  split.
  - apply (proj1 (room_message_relay (world owns_r1) say_hi_r1 Hp) (lit "r1")).
    repeat split; [discriminate | simpl; now left].
  - apply (proj2 (room_message_relay (world initial) say_hi_r1 Hp)).
    intros r [_ [_ []]].
Defined.

(** C1 fails as worded: the process that manages the room whose id is the
    empty string gets an envelope for that very id and emits nothing. *)
Lemma member_not_relayed : ~ relay_iff_member.
Proof.
  intro H.
  specialize (H (world owns_unnamed) say_hi_unnamed
                (JObject [(lit "client", JObject [(lit "id", JString (lit "p1"))]);
                          (lit "room", JString []);
                          (lit "action", JString (lit "say"));
                          (lit "data", JString (lit "hi"))])
                [] eq_refl eq_refl).
  destruct H as [H _].
  assert (Hin : In [] (managingRoomIds (state (world owns_unnamed))))
    by (simpl; now left).
  apply H in Hin. vm_compute in Hin. discriminate Hin.
Qed.

(** Witness of C9: the empty room id, in the state that has it as a
    member. *)
Lemma falsy_room_never_relayed_member :
  In [] (managingRoomIds owns_unnamed) /\
  onNewRoomMessage say_hi_unnamed (world owns_unnamed) =
  (Normal tt, world owns_unnamed).
Proof.
  split; [simpl; now left|].
  apply (@falsy_room_never_relayed (world owns_unnamed) say_hi_unnamed
           (JObject [(lit "client", JObject [(lit "id", JString (lit "p1"))]);
                     (lit "room", JString []);
                     (lit "action", JString (lit "say"));
                     (lit "data", JString (lit "hi"))])
           (JString [])); reflexivity.
Defined.

(** C4 fails as worded: on [not json] the handler does not end normally. *)
Lemma malformed_not_dropped : ~ malformed_dropped.
Proof.
  intro H. specialize (H (world owns_r1) not_json eq_refl).
  vm_compute in H. discriminate H.
Qed.

(** Witness of C4. *)
Lemma undecodable_payload_throws_not_json :
  onNewRoomMessage not_json (world owns_r1) = (Thrown SyntaxError, world owns_r1).
Proof.
  apply (undecodable_payload_throws (world owns_r1) not_json). reflexivity.
Defined.

End BridgeCases.

(** ** Shutdown *)

Section Shutdown.

Implicit Types (w : World) (rooms : list Room) (signal : option jsstring)
         (reason : JSValue).

Lemma with_events_app w (a b : list event) :
  with_events (with_events w a) b = with_events w (a ++ b).
Proof. unfold with_events; simpl. now rewrite app_assoc. Qed.

(** [map] calls the hooks in order and stops at the first that throws. *)
Lemma map_dispose_run rooms w :
  map_dispose rooms w =
  (if existsb throws rooms then Thrown HostError else Normal (fates rooms),
   with_events w (disposals (invoked rooms))).
Proof.
  revert w. induction rooms as [|room rooms IH]; intro w.
  - simpl. now rewrite with_events_nil.
  - cbn [map_dispose]. unfold bind at 1. unfold call_dispose, bind at 1, log.
    cbn [existsb invoked fates List.map]. unfold throws at 1 3.
    destruct (dispose room) as [|p]; cbn [orb].
    + reflexivity.
    + unfold ret at 1. unfold bind. rewrite IH.
      change {| state := state w; trace := trace w ++ [DisposeCalled (roomId room)] |}
        with (with_events w [DisposeCalled (roomId room)]).
      rewrite with_events_app.
      destruct (existsb throws rooms); reflexivity.
Qed.

Lemma rejects_fates rooms :
  existsb is_rejects (fates rooms) = existsb rejects rooms.
Proof.
  unfold fates. induction rooms as [|room rooms IH]; simpl; [reflexivity|].
  rewrite IH. unfold rejects. destruct (dispose room) as [|[]]; reflexivity.
Qed.

Lemma hangs_fates rooms :
  existsb is_never (fates rooms) = existsb hangs rooms.
Proof.
  unfold fates. induction rooms as [|room rooms IH]; simpl; [reflexivity|].
  rewrite IH. unfold hangs. destruct (dispose room) as [|[]]; reflexivity.
Qed.

Lemma Promise_all_fates rooms :
  Promise_all (fates rooms) =
  if existsb rejects rooms then Rejects
  else if existsb hangs rooms then Never else Fulfils.
Proof. unfold Promise_all. now rewrite rejects_fates, hangs_fates. Qed.

(** Without a hook that throws or rejects, the hooks all fulfil exactly
    when none hangs. *)
Lemma fulfils_or_hangs rooms :
  existsb throws rooms = false -> existsb rejects rooms = false ->
  forallb fulfils rooms = negb (existsb hangs rooms).
Proof.
  induction rooms as [|room rooms IH]; simpl; [reflexivity|].
  unfold throws at 1, rejects at 1, fulfils at 1, hangs at 1.
  destruct (dispose room) as [|[]]; simpl; try discriminate; auto.
Qed.

Lemma drains_false rooms :
  drains rooms = false <->
  existsb throws rooms = false /\ existsb rejects rooms = false /\
  existsb hangs rooms = true.
Proof.
  unfold drains. split.
  - intro H. apply orb_false_iff in H as [H Hf].
    apply orb_false_iff in H as [Ht Hr].
    rewrite (fulfils_or_hangs rooms Ht Hr) in Hf.
    apply negb_false_iff in Hf. auto.
  - intros [Ht [Hr Hh]].
    rewrite (fulfils_or_hangs rooms Ht Hr), Ht, Hr, Hh. reflexivity.
Qed.

Lemma invoked_all rooms :
  existsb throws rooms = false -> invoked rooms = rooms.
Proof.
  induction rooms as [|room rooms IH]; simpl; [reflexivity|].
  intro H. apply orb_false_iff in H as [H1 H2].
  rewrite H1. f_equal. now apply IH.
Qed.

(** The whole of [shutdown], in closed form. *)
Lemma shutdown_body_run signal reason w :
  shutdown_body signal reason w =
  if drains (managingRooms (state w))
  then (Exited 0,
        with_events w (logged signal reason ++
                       disposals (invoked (managingRooms (state w))) ++
                       [ServerClose; ProcessExit 0]))
  else (Suspended,
        with_events w (logged signal reason ++
                       disposals (invoked (managingRooms (state w))))).
Proof.
  assert (Hlog :
    (if is_uncaughtException signal && truthy reason
     then log (ConsoleLog reason) else ret tt) w =
    (Normal tt, with_events w (logged signal reason))).
  { unfold logged. destruct (is_uncaughtException signal && truthy reason).
    - reflexivity.
    - unfold ret. now rewrite with_events_nil. }
  unfold shutdown_body. unfold bind at 1. rewrite Hlog.
  set (w0 := with_events w (logged signal reason)).
  assert (Hst : state w0 = state w) by reflexivity.
  unfold try_finally, try_catch. unfold bind at 1, gets. rewrite Hst.
  destruct (managingRooms (state w)) as [|room rooms] eqn:Hrooms.
  - cbn. unfold with_events; simpl. now rewrite <- !app_assoc.
  - cbn [List.length Nat.eqb]. unfold bind at 1.
    rewrite map_dispose_run.
    set (all := room :: rooms).
    destruct (drains all) eqn:Hd.
    + unfold drains in Hd.
      destruct (existsb throws all) eqn:Ht.
      * cbn. unfold w0, with_events; simpl.
        now rewrite <- !app_assoc.
      * rewrite Promise_all_fates.
        destruct (existsb rejects all) eqn:Hr.
        -- cbn. unfold w0, with_events; simpl.
           now rewrite <- !app_assoc.
        -- cbn [orb] in Hd. rewrite (fulfils_or_hangs all Ht Hr) in Hd.
           apply negb_true_iff in Hd. rewrite Hd.
           cbn. unfold w0, with_events; simpl.
           now rewrite <- !app_assoc.
    + apply drains_false in Hd as [Ht [Hr Hh]].
      rewrite Ht, Promise_all_fates, Hr, Hh.
      cbn. unfold w0, with_events; simpl.
      now rewrite <- !app_assoc.
Qed.

End Shutdown.

Section Drain.

Implicit Types (w : World) (signal : option jsstring) (reason : JSValue).

Lemma drains_rejecting (rooms : list Room) :
  (exists room, In room rooms /\ dispose room = Returns Rejects) ->
  drains rooms = true.
Proof.
  intros [room [Hin Hd]]. unfold drains.
  assert (H : existsb rejects rooms = true).
  { apply existsb_exists. exists room. split; [assumption|].
    unfold rejects. now rewrite Hd. }
  rewrite H. now rewrite orb_true_r.
Qed.

Lemma drains_clean (rooms : list Room) :
  (forall room, In room rooms -> dispose room = Returns Fulfils) ->
  drains rooms = true /\ invoked rooms = rooms.
Proof.
  intro H. split.
  - unfold drains.
    assert (Hf : forallb fulfils rooms = true).
    { apply forallb_forall. intros room Hin. unfold fulfils.
      now rewrite (H room Hin). }
    rewrite Hf. now rewrite orb_true_r.
  - apply invoked_all.
    destruct (existsb throws rooms) eqn:E; [|reflexivity].
    apply existsb_exists in E as [room [Hin Ht]].
    unfold throws in Ht. rewrite (H room Hin) in Ht. discriminate.
Qed.

(** C2, as the code has it.  With one room or more, [shutdown] calls the
    hooks in the order of [managingRooms], each once, all of them unless
    one throws (then none after that one), and waits for [Promise.all]
    without a bound.  When a hook throws or rejects, or when all fulfil, it
    closes the socket and exits with code 0.  In the remaining case, where
    no hook throws or rejects and one never settles, it stays suspended:
    the socket is not closed and the process does not exit. *)
Theorem shutdown_drain w signal reason :
  managingRooms (state w) <> [] ->
  let rooms := managingRooms (state w) in
  (existsb throws rooms = false -> invoked rooms = rooms) /\
  (drains rooms = false <->
   existsb throws rooms = false /\ existsb rejects rooms = false /\
   existsb hangs rooms = true) /\
  shutdown_body signal reason w =
  if drains rooms
  then (Exited 0,
        with_events w (logged signal reason ++ disposals (invoked rooms) ++
                       [ServerClose; ProcessExit 0]))
  else (Suspended,
        with_events w (logged signal reason ++ disposals (invoked rooms))).
Proof.
  intros _ rooms. split; [apply invoked_all|].
  split; [apply drains_false | apply shutdown_body_run].
Qed.

(** C6.  When the hook of some room rejects, and also when all hooks
    fulfil, [shutdown] closes the socket and exits with code 0; nothing of
    the failure reaches the promise of [shutdown], which does not reject;
    in a clean drain every hook was called. *)
Theorem failed_disposal_swallowed w signal reason :
  (exists room, In room (managingRooms (state w)) /\
                dispose room = Returns Rejects) \/
  (forall room, In room (managingRooms (state w)) ->
                dispose room = Returns Fulfils) ->
  shutdown_body signal reason w =
  (Exited 0,
   with_events w (logged signal reason ++
                  disposals (invoked (managingRooms (state w))) ++
                  [ServerClose; ProcessExit 0])) /\
  fst (shutdown signal reason w) <> Rejects /\
  ((forall room, In room (managingRooms (state w)) ->
                 dispose room = Returns Fulfils) ->
   invoked (managingRooms (state w)) = managingRooms (state w)).
Proof.
  intro H.
  assert (Hd : drains (managingRooms (state w)) = true).
  { destruct H as [H | H]; [now apply drains_rejecting | now apply drains_clean]. }
  assert (Hrun := shutdown_body_run signal reason w). rewrite Hd in Hrun.
  split; [exact Hrun|]. split.
  - unfold shutdown, async_call. rewrite Hrun. discriminate.
  - intro Hc. now apply drains_clean.
Qed.

(** C8.  With no managed room, [shutdown] calls no hook and waits for
    nothing: it closes the socket and exits with code 0. *)
Theorem shutdown_without_rooms w signal reason :
  managingRooms (state w) = [] ->
  shutdown_body signal reason w =
  (Exited 0,
   with_events w (logged signal reason ++ [ServerClose; ProcessExit 0])) /\
  forall id, ~ In (DisposeCalled id)
                  (logged signal reason ++ [ServerClose; ProcessExit 0]).
Proof.
  intro H. split.
  - rewrite shutdown_body_run, H. reflexivity.
  - intros id Hin. apply in_app_or in Hin as [Hin | Hin].
    + unfold logged in Hin.
      destruct (is_uncaughtException signal && truthy reason);
        simpl in Hin; intuition discriminate.
    + simpl in Hin. intuition discriminate.
Qed.

(** C10, as the code has it.  The promise [gracefullyShutdown] returns
    never rejects, in whatever state and with whatever hooks, because the
    promise of [shutdown] never settles (the body ends the process or stays
    suspended).  The [then().catch()] chain installs no handler: whatever
    the promise it is given does, its own does the same. *)
Theorem gracefullyShutdown_never_rejects w :
  fst (gracefullyShutdown w) = Never /\
  forall (p : settlement) (w' : World), gracefullyShutdown_of p w' = (p, w').
Proof.
  assert (Hof : forall p w', gracefullyShutdown_of p w' = (p, w'))
    by (intros [] w'; reflexivity).
  split; [|exact Hof].
  unfold gracefullyShutdown, shutdown, async_call.
  rewrite shutdown_body_run.
  destruct (drains (managingRooms (state w))); now rewrite Hof.
Qed.

End Drain.

Section DrainCases.

Import Sample Reading.

(** C2 fails as worded: with the one room whose hook never settles,
    [shutdown] calls the hook and then neither closes the socket nor
    exits. *)
Lemma drain_not_bounded : ~ drain_bounded.
Proof.
  intro H.
  specialize (H (world stuck) None JUndefined).
  assert (Hne : managingRooms (state (world stuck)) <> []) by discriminate.
  apply H in Hne. vm_compute in Hne. destruct Hne as [Hc _]. discriminate Hc.
Qed.

(** Witness of C2: the hook of [a] never settles and the one of [b]
    rejects; both are called and the process exits. *)
Lemma shutdown_drain_stuck_and_failing :
  shutdown_body None JUndefined (world stuck_and_failing) =
  (Exited 0,
   with_events (world stuck_and_failing)
     [DisposeCalled (lit "a"); DisposeCalled (lit "b");
      ServerClose; ProcessExit 0]).
Proof.
  assert (Hne : managingRooms (state (world stuck_and_failing)) <> [])
    by discriminate.
  exact (proj2 (proj2 (shutdown_drain (world stuck_and_failing)
                                      None JUndefined Hne))).
Defined.

(** Witness of C6: the same two rooms. *)
Lemma failed_disposal_swallowed_stuck_and_failing :
  shutdown_body (Some (lit "SIGTERM")) JUndefined (world stuck_and_failing) =
  (Exited 0,
   with_events (world stuck_and_failing)
     [DisposeCalled (lit "a"); DisposeCalled (lit "b");
      ServerClose; ProcessExit 0]).
Proof.
  apply (failed_disposal_swallowed (world stuck_and_failing)
           (Some (lit "SIGTERM")) JUndefined).
  left. exists (room "b" (Returns Rejects)). split.
  - simpl. right. now left.
  - reflexivity.
Defined.

(** Witness of C8: a new server, stopped by an uncaught exception. *)
Lemma shutdown_without_rooms_new_server :
  shutdown_body (Some (lit "uncaughtException")) (JString (lit "boom"))
                (world initial) =
  (Exited 0,
   with_events (world initial)
     [ConsoleLog (JString (lit "boom")); ServerClose; ProcessExit 0]).
Proof.
  apply (shutdown_without_rooms (world initial)
           (Some (lit "uncaughtException")) (JString (lit "boom"))).
  reflexivity.
Defined.

(** C10 fails as worded: given a promise that rejects, the chain returns a
    promise that rejects. *)
Lemma rejection_not_swallowed : ~ rejection_swallowed.
Proof.
  intro H. apply (H Rejects (world initial)). reflexivity.
Qed.

End DrainCases.

Section RegistryCases.

Import Sample.

(** Witness of C3: [Chat] registered twice; the second handler is lost. *)
Lemma registerRoom_first_wins_chat :
  registerRoom (lit "Chat") (JHost 2) JUndefined
               (register_all [chat 1] initial) =
  register_all [chat 1] initial /\
  named (lit "Chat")
        (availableRoomTypes (register_all [chat 1; chat 2] initial)) =
  Some (chat 1).
Proof.
  split.
  - apply (registerRoom_first_wins [chat 1] (lit "Chat") (JHost 2) JUndefined).
    simpl. now left.
  - apply (registerRoom_first_wins [chat 1; chat 2] (lit "Chat")
                                   (JHost 2) JUndefined).
Defined.

(** Witness of C5: two rooms are made, the first is disposed of, and a
    room is made again under its id. *)
Lemma managed_rooms_consistent_reuse :
  consistent (run [Made (room "r1" (Returns Fulfils));
                   Made (room "r2" (Returns Fulfils));
                   Disposed (lit "r1");
                   Made (room "r1" (Returns Never))] initial).
Proof.
  apply (managed_rooms_consistent
           [Made (room "r1" (Returns Fulfils));
            Made (room "r2" (Returns Fulfils));
            Disposed (lit "r1");
            Made (room "r1" (Returns Never))]).
  reflexivity.
Defined.

End RegistryCases.

(* ================================================================== *)
(** * Further properties *)

(** ** Creation and disposal of rooms *)

Section RoomLifecycle.

Implicit Types (st : ServerState) (id : jsstring) (room : Room).

Lemma filter_keep_all {A} (f : A -> bool) (l : list A) :
  (forall x, In x l -> f x = true) -> filter f l = l.
Proof.
  induction l as [|x l IH]; simpl; intro H; [reflexivity|].
  rewrite (H x (or_introl eq_refl)). f_equal. apply IH. auto.
Qed.

Lemma filter_twice {A} (f : A -> bool) (l : list A) :
  filter f (filter f l) = filter f l.
Proof.
  apply filter_keep_all. intros x Hx. now apply filter_In in Hx.
Qed.

Lemma filter_swap {A} (f g : A -> bool) (l : list A) :
  filter f (filter g l) = filter g (filter f l).
Proof.
  induction l as [|x l IH]; simpl; [reflexivity|].
  destruct (f x) eqn:Ef, (g x) eqn:Eg; simpl; rewrite ?Ef, ?Eg, IH; reflexivity.
Qed.

Lemma state_eq st (types : list AvailableRoomType) (rooms : list Room)
      (ids : list jsstring) :
  types = availableRoomTypes st -> rooms = managingRooms st ->
  ids = managingRoomIds st ->
  {| availableRoomTypes := types; managingRooms := rooms;
     managingRoomIds := ids |} = st.
Proof. intros -> -> ->. now destruct st. Qed.

Lemma other_instances id id' (rooms : list Room) :
  id' <> id ->
  filter (fun room => str_eqb (roomId room) id')
         (filter (fun room => negb (str_eqb (roomId room) id)) rooms) =
  filter (fun room => str_eqb (roomId room) id') rooms.
Proof.
  intro Hne. induction rooms as [|room rooms IH]; simpl; [reflexivity|].
  destruct (str_eqb (roomId room) id) eqn:E; simpl.
  - apply str_eqb_eq in E.
    destruct (str_eqb (roomId room) id') eqn:E'; [|assumption].
    apply str_eqb_eq in E'. congruence.
  - now rewrite IH.
Qed.

Lemma no_instance id (rooms : list Room) :
  filter (fun room => str_eqb (roomId room) id)
         (filter (fun room => negb (str_eqb (roomId room) id)) rooms) = [].
Proof.
  induction rooms as [|room rooms IH]; simpl; [reflexivity|].
  destruct (str_eqb (roomId room) id) eqn:E; simpl; [assumption|].
  now rewrite E.
Qed.

(** What [onRoomDisposed] takes away and what it leaves: the id is no
    longer in [managingRoomIds] and no instance carries it, while every
    other id keeps its membership and its instances. *)
Theorem disposed_room_gone st id :
  ~ In id (managingRoomIds (onRoomDisposed id st)) /\
  instances id (onRoomDisposed id st) = [] /\
  forall id', id' <> id ->
    (In id' (managingRoomIds (onRoomDisposed id st)) <->
     In id' (managingRoomIds st)) /\
    instances id' (onRoomDisposed id st) = instances id' st.
Proof.
  split; [|split].
  - unfold onRoomDisposed; simpl. intro H. apply filter_In in H as [_ H].
    now rewrite str_eqb_refl in H.
  - apply no_instance.
  - intros id' Hne. split.
    + unfold onRoomDisposed; simpl. rewrite filter_In. split; [tauto|].
      intro H. split; [assumption|].
      now apply negb_true_iff, str_eqb_neq.
    + now apply other_instances.
Qed.

(** Disposing of the same id twice is the same as once, and the order in
    which two ids are disposed of does not matter. *)
Theorem onRoomDisposed_twice_and_swap st (a b : jsstring) :
  onRoomDisposed a (onRoomDisposed a st) = onRoomDisposed a st /\
  onRoomDisposed a (onRoomDisposed b st) = onRoomDisposed b (onRoomDisposed a st).
Proof.
  unfold onRoomDisposed; simpl. split.
  - now rewrite !filter_twice.
  - f_equal; apply filter_swap.
Qed.

(** Disposing of an id that is not managed changes nothing, in a state
    whose id list is the list of the ids of its instances. *)
Theorem dispose_unmanaged_noop st id :
  List.map roomId (managingRooms st) = managingRoomIds st ->
  ~ In id (managingRoomIds st) ->
  onRoomDisposed id st = st.
Proof.
  intros Hmap Hout. unfold onRoomDisposed. apply state_eq; [reflexivity| |].
  - apply filter_keep_all. intros room Hin.
    apply negb_true_iff, str_eqb_neq. intros <-.
    apply Hout. rewrite <- Hmap. now apply in_map.
  - apply filter_keep_all. intros r Hin.
    apply negb_true_iff, str_eqb_neq. now intros ->.
Qed.

(** A room made under an id that was not live and then disposed of leaves
    the state exactly as it was before. *)
Theorem made_then_disposed st room :
  List.map roomId (managingRooms st) = managingRoomIds st ->
  ~ In (roomId room) (managingRoomIds st) ->
  onRoomDisposed (roomId room) (onRoomMade room st) = st.
Proof.
  intros Hmap Hout.
  unfold onRoomDisposed, onRoomMade; simpl.
  rewrite !filter_app; simpl. rewrite str_eqb_refl; simpl.
  rewrite !app_nil_r. apply state_eq; [reflexivity| |].
  - apply filter_keep_all. intros r Hin.
    apply negb_true_iff, str_eqb_neq. intro He.
    apply Hout. rewrite <- Hmap, <- He. now apply in_map.
  - apply filter_keep_all. intros r Hin.
    apply negb_true_iff, str_eqb_neq. now intros ->.
Qed.

(** [onRoomMade] does not look for the id: called with an id that is
    already live, it leaves two instances or more under that id, and the
    state is no longer consistent. *)
Theorem duplicate_id_not_consistent st room :
  List.map roomId (managingRooms st) = managingRoomIds st ->
  In (roomId room) (managingRoomIds st) ->
  2 <= List.length (instances (roomId room) (onRoomMade room st)) /\
  ~ consistent (onRoomMade room st).
Proof.
  intros Hmap Hin.
  assert (Hlen : 2 <= List.length (instances (roomId room) (onRoomMade room st))).
  { unfold instances, onRoomMade; simpl.
    rewrite filter_app, length_app; simpl. rewrite str_eqb_refl; simpl.
    rewrite <- Hmap in Hin. apply in_map_iff in Hin as [r [Hr Hin]].
    assert (Hf : In r (filter (fun room0 => str_eqb (roomId room0) (roomId room))
                              (managingRooms st))).
    { apply filter_In. split; [assumption|]. now apply str_eqb_eq. }
    destruct (filter _ (managingRooms st)); [contradiction | simpl; lia]. }
  split; [assumption|].
  intros [H _].
  assert (Hid : In (roomId room) (managingRoomIds (onRoomMade room st))).
  { unfold onRoomMade; simpl. apply in_or_app. now left. }
  apply H in Hid. lia.
Qed.

End RoomLifecycle.

(** ** The three mutators together *)

Section Mutators.

Implicit Types (st : ServerState) (calls : list call).

Lemma register_types (t : AvailableRoomType) st st' :
  availableRoomTypes st = availableRoomTypes st' ->
  availableRoomTypes (register t st) = availableRoomTypes (register t st').
Proof.
  intro H. unfold register, registerRoom. rewrite H.
  now destruct (includes _ _); simpl; rewrite ?H.
Qed.

Lemma step_types (e : room_event) st :
  availableRoomTypes (step e st) = availableRoomTypes st.
Proof. now destruct e. Qed.

Lemma step_rooms (e : room_event) st st' :
  managingRooms st = managingRooms st' ->
  managingRoomIds st = managingRoomIds st' ->
  managingRooms (step e st) = managingRooms (step e st') /\
  managingRoomIds (step e st) = managingRoomIds (step e st').
Proof. intros H1 H2. destruct e; simpl; rewrite H1, H2; split; reflexivity. Qed.

Lemma invoke_all_split calls st st1 st2 :
  availableRoomTypes st = availableRoomTypes st1 ->
  managingRooms st = managingRooms st2 ->
  managingRoomIds st = managingRoomIds st2 ->
  availableRoomTypes (invoke_all calls st) =
  availableRoomTypes (register_all (registrations calls) st1) /\
  managingRooms (invoke_all calls st) =
  managingRooms (run (room_events calls) st2) /\
  managingRoomIds (invoke_all calls st) =
  managingRoomIds (run (room_events calls) st2).
Proof.
  revert st st1 st2.
  induction calls as [|[t | e] calls IH]; intros st st1 st2 Ht Hr Hi.
  - simpl. auto.
  - simpl. apply IH.
    + now apply register_types.
    + unfold register.
      now rewrite (proj1 (registerRoom_rooms st (name t) (handler t) (options t))).
    + unfold register.
      now rewrite (proj2 (registerRoom_rooms st (name t) (handler t) (options t))).
  - simpl. destruct (step_rooms e st st2 Hr Hi) as [Hr' Hi'].
    apply IH; [|assumption|assumption].
    now rewrite step_types.
Qed.

(** Registrations and room events do not interfere: after any interleaving
    of the three mutators, the registry is what the registrations alone
    give, and the managed rooms and ids are what the room events alone
    give. *)
Theorem registry_and_rooms_independent calls st :
  availableRoomTypes (invoke_all calls st) =
  availableRoomTypes (register_all (registrations calls) st) /\
  managingRooms (invoke_all calls st) =
  managingRooms (run (room_events calls) st) /\
  managingRoomIds (invoke_all calls st) =
  managingRoomIds (run (room_events calls) st).
Proof.
  destruct (invoke_all_split calls st st st eq_refl eq_refl eq_refl)
    as [Htypes [Hrooms Hids]].
  split; [exact Htypes|]. split; [exact Hrooms | exact Hids].
Qed.

Lemma step_ids_of_rooms (e : room_event) st :
  List.map roomId (managingRooms st) = managingRoomIds st ->
  List.map roomId (managingRooms (step e st)) = managingRoomIds (step e st).
Proof.
  intro H. destruct e as [room | id]; simpl.
  - now rewrite map_app, H.
  - now rewrite map_filter_roomId, H.
Qed.

Lemma run_ids_of_rooms (evs : list room_event) st :
  List.map roomId (managingRooms st) = managingRoomIds st ->
  List.map roomId (managingRooms (run evs st)) = managingRoomIds (run evs st).
Proof.
  revert st. induction evs as [|e evs IH]; intros st H; [assumption|].
  simpl. apply IH. now apply step_ids_of_rooms.
Qed.

(** Whatever calls are made on a new server, in whatever order and with
    whatever ids, [managingRoomIds] is the list of the [roomId]s of
    [managingRooms], position by position, and no name is registered
    twice. *)
Theorem state_invariants calls :
  List.map roomId (managingRooms (invoke_all calls initial)) =
  managingRoomIds (invoke_all calls initial) /\
  NoDup (names (invoke_all calls initial)).
Proof.
  destruct (invoke_all_split calls initial initial initial eq_refl eq_refl eq_refl)
    as [Ht [Hr Hi]].
  split.
  - rewrite Hr, Hi. now apply run_ids_of_rooms.
  - unfold names. rewrite Ht.
    apply (register_all_NoDup (registrations calls) initial). constructor.
Qed.

Lemma register_all_firsts (l : list AvailableRoomType) st :
  availableRoomTypes (register_all l st) =
  availableRoomTypes st ++ firsts (names st) l.
Proof.
  revert st. induction l as [|t l IH]; intro st.
  - simpl. now rewrite app_nil_r.
  - change (register_all (t :: l) st) with (register_all l (register t st)).
    rewrite IH. cbn [firsts]. unfold register, registerRoom, names.
    destruct (includes (List.map name (availableRoomTypes st)) (JString (name t)))
      eqn:E; [reflexivity|].
    cbn [availableRoomTypes]. rewrite map_app, <- app_assoc.
    destruct t; reflexivity.
Qed.

(** The registry after a sequence of [registerRoom] calls on a new server
    is the sequence itself without the calls whose name came earlier: the
    entries are in call order, unchanged, and never more than the calls. *)
Theorem registry_is_first_calls (l : list AvailableRoomType) :
  availableRoomTypes (register_all l initial) = firsts [] l /\
  List.length (availableRoomTypes (register_all l initial)) <= List.length l.
Proof.
  assert (H : availableRoomTypes (register_all l initial) = firsts [] l)
    by apply (register_all_firsts l initial).
  split; [assumption|]. rewrite H. clear H.
  generalize (@nil jsstring) as seen.
  induction l as [|t l IH]; intro seen; cbn [firsts List.length]; [lia|].
  destruct (includes seen (JString (name t))); cbn [List.length].
  - specialize (IH seen). lia.
  - specialize (IH (seen ++ [name t])). lia.
Qed.

(** The registry only grows at its end: a further sequence of calls leaves
    every entry that was there in its place. *)
Theorem registry_append_only (l : list AvailableRoomType) st :
  exists added,
    availableRoomTypes (register_all l st) = availableRoomTypes st ++ added /\
    forall t, In t added -> In t l /\ ~ In (name t) (names st).
Proof.
  exists (firsts (names st) l). split; [apply register_all_firsts|].
  generalize (names st) as seen.
  induction l as [|c l IH]; intros seen t Hin; cbn [firsts] in Hin;
    [contradiction|].
  destruct (includes seen (JString (name c))) eqn:E.
  - destruct (IH seen t Hin) as [H1 H2]. split; [now right | assumption].
  - destruct Hin as [<- | Hin].
    + split; [now left|]. intro H. apply includes_In in H. congruence.
    + destruct (IH _ t Hin) as [H1 H2]. split; [now right|].
      intro H. apply H2. apply in_or_app. now left.
Qed.

(** Registering under the same name twice in a row is the same as
    registering once, whatever the second handler and options are. *)
Theorem registerRoom_twice (n : jsstring) (h o h' o' : JSValue) st :
  registerRoom n h' o' (registerRoom n h o st) = registerRoom n h o st.
Proof.
  apply registerRoom_taken. unfold names, registerRoom.
  destruct (includes (List.map name (availableRoomTypes st)) (JString n)) eqn:E.
  - now apply includes_In.
  - simpl. rewrite map_app. apply in_or_app. right. now left.
Qed.

End Mutators.

(** ** More on the bridge *)

Section BridgeMore.

Import JSON.

Implicit Types (w : World) (text : jsstring) (data : JSValue).

Lemma number_json (s r : jsstring) (v : JSValue) :
  number s = Some (v, r) -> is_json v = true.
Proof.
  unfold number.
  destruct (match s with
            | [] => (false, s)
            | c :: r0 => if N.eqb c 45 then (true, r0) else (false, s)
            end) as [neg s0].
  destruct (int_part s0) as [[i s1]|]; [|discriminate].
  destruct (frac_part i s1) as [[[c nf] s2]|]; [|discriminate].
  destruct (exp_part s2) as [[e s3]|]; [|discriminate].
  intro H. injection H as <- _. reflexivity.
Qed.

Ltac split_hyp :=
  match goal with
  | H : match ?x with _ => _ end = POk _ _ |- _ =>
      destruct x eqn:?; try discriminate H
  end.

Lemma parsed_is_json (fuel : nat) :
  (forall s v r, value fuel s = POk v r -> is_json v = true) /\
  (forall s acc v r, elements fuel s acc = POk v r -> is_json v = true) /\
  (forall s acc v r, members fuel s acc = POk v r -> is_json v = true).
Proof.
  induction fuel as [|f [IHv [IHe IHm]]];
    [repeat split; intros; discriminate|].
  repeat split.
  - intros s v r H. cbn [value] in H. repeat split_hyp;
      try (now apply IHe in H); try (now apply IHm in H);
      try (injection H as <- _; reflexivity).
    match goal with E : number _ = Some _ |- _ => apply number_json in E end.
    now injection H as <- _.
  - intros s acc v r H. cbn [elements] in H. repeat split_hyp;
      try (now apply IHe in H); injection H as <- _; reflexivity.
  - intros s acc v r H. cbn [members] in H. repeat split_hyp;
      try (now apply IHm in H); injection H as <- _; reflexivity.
Qed.

Lemma parse_is_json text data :
  JSON.parse text = Some data -> is_json data = true.
Proof.
  unfold JSON.parse.
  destruct (value (2 * List.length text + 1) text) as [v rest| |] eqn:E;
    try discriminate.
  apply (parsed_is_json _) in E.
  destruct (skip_ws rest); [|discriminate].
  intro H. now injection H as <-.
Qed.

Lemma handler_addressed w text data (r : jsstring) :
  JSON.parse text = Some data ->
  addressed_to (managingRoomIds (state w)) data r ->
  onNewRoomMessage text w =
  (Normal tt, with_events w [Emit (JString r) (relayed data)]).
Proof.
  intros Hp [Hget [Hne Hin]].
  unfold onNewRoomMessage, JSON_parse. rewrite Hp.
  cbv [bind prop gets ret throw].
  pose proof (get_string_object data Hget) as Hf.
  assert (Hg : truthy (JString r) &&
               includes (managingRoomIds (state w)) (JString r) = true)
    by (apply guard_true; eauto).
  rewrite Hget. cbv beta iota. rewrite Hg, !Hf. reflexivity.
Qed.

Lemma handler_not_addressed w text data :
  JSON.parse text = Some data ->
  (forall r, ~ addressed_to (managingRoomIds (state w)) data r) ->
  onNewRoomMessage text w =
  (match data with JUndefined | JNull => Thrown TypeError | _ => Normal tt end, w).
Proof.
  intros Hp Hnone.
  unfold onNewRoomMessage, JSON_parse. rewrite Hp.
  cbv [bind prop gets ret throw].
  destruct (get data (lit "room")) as [e | room] eqn:Hget.
  - destruct data; simpl in Hget; try discriminate;
      injection Hget as <-; reflexivity.
  - cbv beta iota.
    destruct (truthy room && includes (managingRoomIds (state w)) room) eqn:Hg.
    + apply guard_true in Hg as [r [-> [Hne Hin]]].
      exfalso. apply (Hnone r). repeat split; assumption.
    + destruct data; simpl in Hget; try discriminate; reflexivity.
Qed.

(** The room an envelope is addressed to is decided by the envelope. *)
Lemma addressed_or_not (ids : list jsstring) data :
  (exists r, addressed_to ids data r) \/ (forall r, ~ addressed_to ids data r).
Proof.
  destruct (get data (lit "room")) as [e | room] eqn:Hget.
  - right. intros r [H _]. congruence.
  - destruct (truthy room && includes ids room) eqn:Hg.
    + apply guard_true in Hg as [r [-> [Hne Hin]]].
      left. exists r. repeat split; assumption.
    + right. intros r [H [Hne Hin]].
      assert (Hg' : truthy room && includes ids room = true).
      { apply guard_true. exists r. repeat split; congruence. }
      congruence.
Qed.

(** How the handler completes, for every text: it throws [SyntaxError] on
    a text that is not JSON, [TypeError] on the JSON text [null], and ends
    normally on every other JSON text, whatever its shape. *)
Theorem handler_completion w text :
  fst (onNewRoomMessage text w) =
  match JSON.parse text with
  | None => Thrown SyntaxError
  | Some JNull => Thrown TypeError
  | Some _ => Normal tt
  end.
Proof.
  destruct (JSON.parse text) as [data|] eqn:Hp.
  - pose proof (parse_is_json text Hp) as Hj.
    destruct (addressed_or_not (managingRoomIds (state w)) data) as [[r Ha] | Hn].
    + rewrite (handler_addressed w text Hp Ha).
      destruct Ha as [Hget _].
      destruct data; simpl in Hget; try discriminate; reflexivity.
    + rewrite (handler_not_addressed w text Hp Hn).
      destruct data; try discriminate Hj; reflexivity.
  - unfold onNewRoomMessage, JSON_parse, bind. now rewrite Hp.
Qed.

(** What the handler can do to a world, for every text: nothing, or one
    emit under a key that is a non-empty id of [managingRoomIds].  It
    never emits under another key, never twice, and never writes to the
    server state. *)
Theorem relay_only_managed w text :
  snd (onNewRoomMessage text w) = w \/
  exists (r : jsstring) (arg : emit_arg),
    r <> [] /\ In r (managingRoomIds (state w)) /\
    snd (onNewRoomMessage text w) = with_events w [Emit (JString r) arg].
Proof.
  destruct (JSON.parse text) as [data|] eqn:Hp.
  - destruct (addressed_or_not (managingRoomIds (state w)) data) as [[r Ha] | Hn].
    + right. exists r, (relayed data).
      rewrite (handler_addressed w text Hp Ha).
      destruct Ha as [_ [Hne Hin]]. auto.
    + left. now rewrite (handler_not_addressed w text Hp Hn).
  - left. unfold onNewRoomMessage, JSON_parse, bind. now rewrite Hp.
Qed.

(** Two processes that manage no id in common never both relay the same
    message. *)
Theorem relay_single_owner (w1 w2 : World) text :
  (forall r, In r (managingRoomIds (state w1)) ->
             ~ In r (managingRoomIds (state w2))) ->
  snd (onNewRoomMessage text w1) = w1 \/ snd (onNewRoomMessage text w2) = w2.
Proof.
  intro Hdisj.
  destruct (JSON.parse text) as [data|] eqn:Hp.
  - destruct (addressed_or_not (managingRoomIds (state w1)) data) as [[r Ha] | Hn].
    + right.
      rewrite (handler_not_addressed w2 text Hp); [reflexivity|].
      intros r' [Hget' [_ Hin']]. destruct Ha as [Hget [_ Hin]].
      assert (r' = r) by congruence. subst r'.
      now apply (Hdisj r).
    + left. now rewrite (handler_not_addressed w1 text Hp Hn).
  - left. unfold onNewRoomMessage, JSON_parse, bind. now rewrite Hp.
Qed.

(** Once [onRoomMade] has run for a room with a non-empty id, an envelope
    for that id is relayed under it. *)
Theorem made_room_relayed (st : ServerState) (room : Room)
        (tr : list event) text data :
  JSON.parse text = Some data ->
  get data (lit "room") = inr (JString (roomId room)) ->
  roomId room <> [] ->
  onNewRoomMessage text (at_state (onRoomMade room st) tr) =
  (Normal tt,
   at_state (onRoomMade room st)
            (tr ++ [Emit (JString (roomId room)) (relayed data)])).
Proof.
  intros Hp Hget Hne.
  apply (handler_addressed (at_state (onRoomMade room st) tr) text Hp).
  repeat split; [assumption | assumption |].
  simpl. apply in_or_app. right. now left.
Qed.

(** Once [onRoomDisposed] has run for an id, an envelope for that id is
    ignored, whatever else the process manages. *)
Theorem disposed_room_not_relayed (st : ServerState) (id : jsstring)
        (tr : list event) text data :
  JSON.parse text = Some data ->
  get data (lit "room") = inr (JString id) ->
  onNewRoomMessage text (at_state (onRoomDisposed id st) tr) =
  (Normal tt, at_state (onRoomDisposed id st) tr).
Proof.
  intros Hp Hget.
  rewrite (handler_not_addressed (at_state (onRoomDisposed id st) tr) text Hp).
  - destruct data; simpl in Hget; try discriminate; reflexivity.
  - intros r [Hget' [_ Hin]].
    assert (r = id) by congruence. subst r.
    simpl in Hin. apply filter_In in Hin as [_ Hin].
    now rewrite str_eqb_refl in Hin.
Qed.

End BridgeMore.

(** ** More on shutdown *)

Section ShutdownMore.

Implicit Types (w : World) (signal : option jsstring) (reason : JSValue).


Lemma shutdown_events signal reason w :
  exists tail,
    (tail = [] \/ tail = [ServerClose; ProcessExit 0]) /\
    snd (shutdown_body signal reason w) =
    with_events w (logged signal reason ++
                   disposals (invoked (managingRooms (state w))) ++ tail).
Proof.
  rewrite shutdown_body_run.
  destruct (drains (managingRooms (state w))).
  - exists [ServerClose; ProcessExit 0]. split; [now right | reflexivity].
  - exists []. split; [now left | now rewrite app_nil_r].
Qed.

Lemma invoked_In (rooms : list Room) (room : Room) :
  In room (invoked rooms) -> In room rooms.
Proof.
  induction rooms as [|r rooms IH]; simpl; [tauto|].
  intros [H | H]; [now left|].
  destruct (throws r); [contradiction | right; now apply IH].
Qed.

Lemma invoked_until (pre post : list Room) (room : Room) :
  existsb throws pre = false -> throws room = true ->
  invoked (pre ++ room :: post) = pre ++ [room].
Proof.
  intros Hpre Hr. induction pre as [|r pre IH]; simpl.
  - now rewrite Hr.
  - simpl in Hpre. apply orb_false_iff in Hpre as [H1 H2].
    rewrite H1. f_equal. now apply IH.
Qed.

(** [shutdown] never completes by throwing or by returning: it ends the
    process with code 0, also after a failed disposal, or it stays
    suspended; so the promise it returns never settles. *)
Theorem shutdown_exits_or_waits signal reason w :
  (fst (shutdown_body signal reason w) = Exited 0%Z \/
   fst (shutdown_body signal reason w) = Suspended) /\
  fst (shutdown signal reason w) = Never.
Proof.
  unfold shutdown, async_call. rewrite shutdown_body_run.
  destruct (drains (managingRooms (state w))); simpl; auto.
Qed.

(** A hook that throws when it is called stops the round of calls: the
    hooks before it and its own are called, the hooks of the rooms after it
    are not, and the process exits with code 0. *)
Theorem throwing_hook_skips_rest signal reason w
        (pre post : list Room) (room : Room) :
  managingRooms (state w) = pre ++ room :: post ->
  existsb throws pre = false ->
  dispose room = Throws ->
  shutdown_body signal reason w =
  (Exited 0,
   with_events w (logged signal reason ++ disposals (pre ++ [room]) ++
                  [ServerClose; ProcessExit 0])).
Proof.
  intros Hrooms Hpre Hthrow.
  assert (Ht : throws room = true) by (unfold throws; now rewrite Hthrow).
  rewrite shutdown_body_run, Hrooms, (invoked_until pre post room Hpre Ht).
  assert (Hd : drains (pre ++ room :: post) = true).
  { unfold drains. rewrite existsb_app. simpl. rewrite Ht.
    now rewrite orb_true_r. }
  now rewrite Hd.
Qed.


Lemma reachable_ids_of_rooms (calls : list call) :
  List.map roomId (managingRooms (invoke_all calls initial)) =
  managingRoomIds (invoke_all calls initial).
Proof.
  destruct (invoke_all_split calls initial initial initial eq_refl eq_refl eq_refl)
    as [_ [Hr Hi]].
  rewrite Hr, Hi. now apply run_ids_of_rooms.
Qed.

(** In a state reached by calls of the mutators on a new server, when no
    hook throws, the hooks [shutdown] calls are those of the ids of
    [managingRoomIds], in that order, each once. *)
Theorem shutdown_calls_managed_ids (calls : list call) signal reason
        (tr : list event) :
  existsb throws (managingRooms (invoke_all calls initial)) = false ->
  exists tail,
    (tail = [] \/ tail = [ServerClose; ProcessExit 0]) /\
    snd (shutdown_body signal reason (at_state (invoke_all calls initial) tr)) =
    with_events (at_state (invoke_all calls initial) tr)
      (logged signal reason ++
       List.map DisposeCalled (managingRoomIds (invoke_all calls initial)) ++
       tail).
Proof.
  intro Hthrow.
  destruct (shutdown_events signal reason (at_state (invoke_all calls initial) tr))
    as [tail [Htail Hrun]].
  exists tail. split; [assumption|].
  rewrite Hrun. cbn [state at_state].
  rewrite (invoked_all _ Hthrow). unfold disposals.
  now rewrite <- reachable_ids_of_rooms, map_map.
Qed.

(** After [onRoomDisposed] has run for an id, [shutdown] does not call a
    hook for that id. *)
Theorem disposed_room_hook_not_called (st : ServerState) (id : jsstring)
        signal reason (tr : list event) :
  exists evs,
    snd (shutdown_body signal reason (at_state (onRoomDisposed id st) tr)) =
    with_events (at_state (onRoomDisposed id st) tr) evs /\
    ~ In (DisposeCalled id) evs.
Proof.
  destruct (shutdown_events signal reason (at_state (onRoomDisposed id st) tr))
    as [tail [Htail Hrun]].
  eexists. split; [exact Hrun|].
  rewrite !in_app_iff. intros [H | [H | H]].
  - unfold logged in H.
    destruct (is_uncaughtException signal && truthy reason);
      simpl in H; intuition discriminate.
  - unfold disposals in H. apply in_map_iff in H as [r [Hr Hin]].
    injection Hr as Hr. apply invoked_In in Hin.
    cbn [state at_state onRoomDisposed managingRooms] in Hin.
    apply filter_In in Hin as [_ Hin].
    rewrite Hr, str_eqb_refl in Hin. discriminate.
  - destruct Htail as [-> | ->]; simpl in H; intuition discriminate.
Qed.

End ShutdownMore.

(** ** The further properties on sample inputs *)

Section MoreCases.

Import Sample Scenario.

Lemma disposed_room_gone_r1 :
  ~ In (lit "r1") (managingRoomIds (onRoomDisposed (lit "r1") owns_r1)).
Proof. apply (disposed_room_gone owns_r1 (lit "r1")). Defined.

Lemma dispose_unmanaged_noop_r2 :
  onRoomDisposed (lit "r2") owns_r1 = owns_r1.
Proof.
  apply (dispose_unmanaged_noop owns_r1 (lit "r2")).
  - reflexivity.
  - simpl. intros [H | []]. discriminate H.
Defined.

Lemma made_then_disposed_r2 :
  onRoomDisposed (lit "r2") (onRoomMade (room "r2" (Returns Never)) owns_r1) =
  owns_r1.
Proof.
  apply (made_then_disposed owns_r1 (room "r2" (Returns Never))).
  - reflexivity.
  - simpl. intros [H | []]. discriminate H.
Defined.

Lemma duplicate_id_not_consistent_r1 :
  ~ consistent (onRoomMade (room "r1" (Returns Never)) owns_r1).
Proof.
  apply (duplicate_id_not_consistent owns_r1 (room "r1" (Returns Never))).
  - reflexivity.
  - simpl. now left.
Defined.

Lemma registry_append_only_chat :
  exists added,
    availableRoomTypes (register_all [chat 2; lobby 3]
                                     (register_all [chat 1] initial)) =
    availableRoomTypes (register_all [chat 1] initial) ++ added /\
    forall t, In t added ->
              In t [chat 2; lobby 3] /\
              ~ In (name t) (names (register_all [chat 1] initial)).
Proof.
  apply (registry_append_only [chat 2; lobby 3] (register_all [chat 1] initial)).
Defined.

Lemma relay_single_owner_r1_r2 :
  snd (onNewRoomMessage say_hi_r1 (world owns_r1)) = world owns_r1 \/
  snd (onNewRoomMessage say_hi_r1 (world owns_r2)) = world owns_r2.
Proof.
  apply (relay_single_owner (world owns_r1) (world owns_r2) say_hi_r1).
  simpl. intros r [<- | []] [H | []]. discriminate H.
Defined.

Lemma made_room_relayed_r1 :
  onNewRoomMessage say_hi_r1
    (at_state (onRoomMade (room "r1" (Returns Fulfils)) owns_r2) []) =
  (Normal tt,
   at_state (onRoomMade (room "r1" (Returns Fulfils)) owns_r2)
     [Emit (JString (lit "r1"))
        (Stringified
           (JObject [(lit "client", JObject [(lit "id", JString (lit "p1"))]);
                     (lit "action", JString (lit "say"));
                     (lit "data", JString (lit "hi"))]))]).
Proof.
  apply (@made_room_relayed owns_r2 (room "r1" (Returns Fulfils)) [] say_hi_r1
           (JObject [(lit "client", JObject [(lit "id", JString (lit "p1"))]);
                     (lit "room", JString (lit "r1"));
                     (lit "action", JString (lit "say"));
                     (lit "data", JString (lit "hi"))])).
  - vm_compute. reflexivity.
  - reflexivity.
  - discriminate.
Defined.

Lemma disposed_room_not_relayed_r1 :
  onNewRoomMessage say_hi_r1 (at_state (onRoomDisposed (lit "r1") owns_r1) []) =
  (Normal tt, at_state (onRoomDisposed (lit "r1") owns_r1) []).
Proof.
  apply (@disposed_room_not_relayed owns_r1 (lit "r1") [] say_hi_r1
           (JObject [(lit "client", JObject [(lit "id", JString (lit "p1"))]);
                     (lit "room", JString (lit "r1"));
                     (lit "action", JString (lit "say"));
                     (lit "data", JString (lit "hi"))])).
  - vm_compute. reflexivity.
  - reflexivity.
Defined.

Lemma throwing_hook_skips_rest_a_b_c :
  shutdown_body (Some (lit "SIGINT")) JUndefined (world a_b_c) =
  (Exited 0,
   with_events (world a_b_c)
     [DisposeCalled (lit "a"); DisposeCalled (lit "b");
      ServerClose; ProcessExit 0]).
Proof.
  apply (throwing_hook_skips_rest (Some (lit "SIGINT")) JUndefined (world a_b_c)
           [room_a] [room_c] room_b); reflexivity.
Defined.


Lemma shutdown_calls_managed_ids_busy :
  exists tail,
    (tail = [] \/ tail = [ServerClose; ProcessExit 0]) /\
    snd (shutdown_body None JUndefined (at_state (invoke_all busy initial) [])) =
    with_events (at_state (invoke_all busy initial) [])
      (logged None JUndefined ++
       List.map DisposeCalled (managingRoomIds (invoke_all busy initial)) ++
       tail).
Proof.
  apply (shutdown_calls_managed_ids busy None JUndefined []). reflexivity.
Defined.

End MoreCases.
